(** * Arbitrage scanner engine (src/engines/arbitrage_engine.py)

    A shallow embedding of [ArbitrageScannerEngine]: the four detectors,
    the scan cycle [scan_all] and the execution gate [_execute_arbitrage],
    followed by the properties of the engine.

    Modelling conventions.
    - Python floats are exact rationals ([Q]); rounding is not modelled.
      Numeric equalities are therefore stated with [==] ([Qeq]).
    - A dict is an association list in insertion order with unique keys
      ([dict_set]); [self.exchanges] holds the connected venue handles and
      is represented by its keys, the behaviour of a handle during one
      cycle being given by the [World] of that cycle.
    - A Python exception is a [Raise] in the [Result] monad; a network
      call that raises is an oracle answering [None].
    - [datetime.now()] is an oracle: each detector coroutine reads its own
      sequence of clock values, [now w kind k] being its k-th reading.
    - [await]/[asyncio.gather] run the four detectors over the same ticker
      snapshot; since they share no mutable state the interleaving is not
      observable and [gather] is the list of the four results. *)

From Stdlib Require Import QArith Qabs Qminmax List String Bool Arith ZArith.
From Stdlib Require Import Lia Lqa.
From Stdlib Require Import Sorted Permutation.
Import ListNotations.

Open Scope string_scope.
Open Scope Q_scope.
Open Scope list_scope.

(** ** Python helpers *)

Definition Qltb (x y : Q) : bool := negb (Qle_bool y x).
Definition Qgeb (x y : Q) : bool := Qle_bool y x.
Definition Qgtb (x y : Q) : bool := Qltb y x.

(** [min(a, b)]: the first argument unless the second is strictly smaller. *)
Definition pymin (a b : Q) : Q := if Qltb b a then b else a.

Inductive Exception : Type :=
| ZeroDivisionError
| TypeError
| NetworkError.

Inductive Result (A : Type) : Type :=
| Ok (a : A)
| Raise (e : Exception).

Arguments Ok {A} a.
Arguments Raise {A} e.

Definition bind {A B} (m : Result A) (k : A -> Result B) : Result B :=
  match m with
  | Ok a => k a
  | Raise e => Raise e
  end.

Notation "x <- m ;; k" := (bind m (fun x => k))
  (at level 61, m at next level, right associativity).

(** [a / b] on floats raises on a zero divisor. *)
Definition pydiv (a b : Q) : Result Q :=
  if Qeq_bool b 0 then Raise ZeroDivisionError else Ok (a / b).

(** A [for] loop whose body may raise: the first exception leaves the loop. *)
Fixpoint foldM {A B} (body : B -> A -> Result B) (l : list A) (acc : B)
  : Result B :=
  match l with
  | [] => Ok acc
  | x :: l' => acc' <- body acc x ;; foldM body l' acc'
  end.

(** [d[k] = v] on an insertion-ordered dict. *)
Fixpoint dict_set {V} (k : string) (v : V) (d : list (string * V))
  : list (string * V) :=
  match d with
  | [] => [(k, v)]
  | (k', v') :: d' =>
      if String.eqb k k' then (k, v) :: d' else (k', v') :: dict_set k v d'
  end.

Fixpoint dict_get {V} (k : string) (d : list (string * V)) : option V :=
  match d with
  | [] => None
  | (k', v) :: d' => if String.eqb k k' then Some v else dict_get k d'
  end.

Definition mem (k : string) (l : list string) : bool :=
  existsb (String.eqb k) l.

(** Adding a key to a dict represented by its keys. *)
Definition add_key (k : string) (l : list string) : list string :=
  if mem k l then l else l ++ [k].

(** ** Data model *)

Definition DateTime := Z.

Inductive ArbitrageType : Type :=
| CROSS_EXCHANGE
| TRIANGULAR
| FUNDING_RATE
| STABLECOIN.

(** The components of the f-string that builds an opportunity's id. *)
Inductive OppId : Type :=
| IdCross (symbol ex_buy ex_sell : string) (ts : DateTime)
| IdTri (name path0 : string) (ts : DateTime)
| IdFunding (symbol : string) (ts : DateTime)
| IdStable (pair name : string) (ts : DateTime).

Inductive Details : Type :=
| DetailsFees (fees : Q)
| DetailsPath (path : list string) (prices : list (string * (Q * Q)))
| DetailsFunding (funding_rate annual_rate : Q) (direction : string)
| DetailsStable (current_price deviation : Q) (direction : string).

Record ArbitrageOpportunity : Type := {
  opp_id : OppId;
  arb_type : ArbitrageType;
  symbol : string;
  buy_exchange : string;
  buy_price : Q;
  sell_exchange : string;
  sell_price : Q;
  spread : Q;
  net_profit : Q;
  gross_profit : Q;
  max_size : Q;
  execution_time_ms : Z;
  timestamp : DateTime;
  confidence : Q;
  details : Details
}.

(** A ccxt ticker; [quoteVolume] is read with [.get(..., 0)]. *)
Record Ticker : Type := {
  bid : Q;
  ask : Q;
  last : Q;
  quoteVolume : option Q
}.

(** The fields of the configuration object read by the engine. *)
Record Config : Type := {
  min_arbitrage_profit_pct : Q;
  trading_pairs : list string;
  arbitrage_exchanges : list string;
  paper_trading : bool;
  binance_api_key : string;
  bybit_api_key : string;
  okx_api_key : string
}.

(** What the outside answers during one scan cycle. *)
Record World : Type := {
  (** the ['arbitrage_budget'] entry of [state.get_allocation()] *)
  arbitrage_budget : option Q;
  (** [exchange.fetch_ticker(symbol)] of venue [name]; [None] when it raises *)
  fetch_ticker : string -> string -> option Ticker;
  (** [exchange.markets]; [None] when the markets were never loaded *)
  markets : string -> option (list string);
  (** [datetime.now()] *)
  now : ArbitrageType -> nat -> DateTime;
  (** whether the ccxt import succeeded *)
  ccxt_available : bool;
  (** whether [getattr(ccxt, name)(cfg)] returns a handle *)
  connect : string -> bool
}.

(** The mutable attributes of [ArbitrageScannerEngine]. *)
Record Engine : Type := {
  exchanges : list string;
  total_scans : nat;
  total_opportunities : nat;
  total_profit : Q
}.

Definition fee_rates : list (string * Q) :=
  [("binance", 0.075); ("bybit", 0.075); ("okx", 0.08);
   ("kucoin", 0.1); ("mexc", 0.1)].

(** [self.fee_rates.get(name, 0.1)] *)
Definition fee_rate (name : string) : Q :=
  match dict_get name fee_rates with
  | Some f => f
  | None => 0.1
  end.

Definition triangular_paths : list (string * string * string) :=
  [("BTC/USDT", "ETH/BTC", "ETH/USDT");
   ("BTC/USDT", "SOL/BTC", "SOL/USDT");
   ("ETH/USDT", "SOL/ETH", "SOL/USDT")].

Definition __init__ : Engine :=
  {| exchanges := []; total_scans := 0; total_opportunities := 0;
     total_profit := 0 |}.

(** ** initialize *)

(** The ['apiKey'] of [exchange_configs[name]], when [name] is configured. *)
Definition exchange_configs (cfg : Config) (name : string) : option string :=
  if String.eqb name "binance" then Some (binance_api_key cfg)
  else if String.eqb name "bybit" then Some (bybit_api_key cfg)
  else if String.eqb name "okx" then Some (okx_api_key cfg)
  else None.

Definition initialize (cfg : Config) (w : World) (exs : list string)
  : list string :=
  if negb (ccxt_available w) then exs
  else
    fold_left
      (fun exs name =>
         match exchange_configs cfg name with
         | Some apiKey =>
             if negb (String.eqb apiKey "") || String.eqb name "binance"
             then if connect w name then add_key name exs else exs
             else exs
         | None => exs
         end)
      (arbitrage_exchanges cfg) exs.

(** ** _scan_cross_exchange *)

Record PriceEntry : Type := {
  pe_bid : Q;
  pe_ask : Q;
  pe_volume : Q
}.

Definition price_entry (ticker : Ticker) : PriceEntry :=
  {| pe_bid := bid ticker;
     pe_ask := ask ticker;
     pe_volume := match quoteVolume ticker with Some v => v | None => 0 end |}.

(** The inner [for name, exchange in self.exchanges.items()] with its
    [try]/[except]: a venue whose fetch raises gets no entry in [prices]. *)
Definition fetch_prices (w : World) (exs : list string) (sym : string)
  : list (string * PriceEntry) :=
  fold_left
    (fun prices name =>
       match fetch_ticker w name sym with
       | Some ticker => dict_set name (price_entry ticker) prices
       | None => prices
       end)
    exs [].

(** The opportunity built for buying on [buy] and selling on [sell];
    [p1], [p2] are the entries of the pair in enumeration order, used by
    [max_size] in both directions.  Two clock readings per opportunity. *)
Definition cross_opp (w : World) (sym : string)
    (buy sell : string) (pbuy psell p1 p2 : PriceEntry)
    (spread_dir total_fees : Q)
    (opportunities : list ArbitrageOpportunity) : ArbitrageOpportunity :=
  let net := spread_dir - total_fees / 100 in
  {| opp_id := IdCross sym buy sell
                 (now w CROSS_EXCHANGE (2 * List.length opportunities));
     arb_type := CROSS_EXCHANGE;
     symbol := sym;
     buy_exchange := buy;
     buy_price := pe_ask pbuy;
     sell_exchange := sell;
     sell_price := pe_bid psell;
     spread := spread_dir * 100;
     net_profit := net * 100;
     gross_profit := spread_dir * 100;
     max_size := pymin (pe_volume p1) (pe_volume p2) * 0.01;
     execution_time_ms := 500;
     timestamp := now w CROSS_EXCHANGE (2 * List.length opportunities + 1);
     confidence := if Qgtb spread_dir 0.002 then 0.8 else 0.6;
     details := DetailsFees total_fees |}.

(** The body of the double loop for the pair [(ex1, ex2)]. *)
Definition cross_pair (w : World) (sym : string)
    (e1 e2 : string * PriceEntry)
    (opportunities : list ArbitrageOpportunity)
  : Result (list ArbitrageOpportunity) :=
  let '(ex1, p1) := e1 in
  let '(ex2, p2) := e2 in
  spread_1to2 <- pydiv (pe_bid p2 - pe_ask p1) (pe_ask p1) ;;
  spread_2to1 <- pydiv (pe_bid p1 - pe_ask p2) (pe_ask p2) ;;
  let total_fees := fee_rate ex1 + fee_rate ex2 in
  let opportunities :=
    if Qgtb spread_1to2 (total_fees / 100)
    then opportunities
           ++ [cross_opp w sym ex1 ex2 p1 p2 p1 p2 spread_1to2 total_fees
                 opportunities]
    else opportunities in
  let opportunities :=
    if Qgtb spread_2to1 (total_fees / 100)
    then opportunities
           ++ [cross_opp w sym ex2 ex1 p2 p1 p1 p2 spread_2to1 total_fees
                 opportunities]
    else opportunities in
  Ok opportunities.

(** [for i in range(n): for j in range(i + 1, n)] over the keys of
    [prices]. *)
Fixpoint cross_pairs (w : World) (sym : string)
    (prices : list (string * PriceEntry))
    (opportunities : list ArbitrageOpportunity)
  : Result (list ArbitrageOpportunity) :=
  match prices with
  | [] => Ok opportunities
  | e1 :: rest =>
      opportunities' <-
        foldM (fun acc e2 => cross_pair w sym e1 e2 acc) rest opportunities ;;
      cross_pairs w sym rest opportunities'
  end.

(** One iteration of [for symbol in self.config.trading_pairs]. *)
Definition cross_symbol (w : World) (exs : list string)
    (opportunities : list ArbitrageOpportunity) (sym : string)
  : Result (list ArbitrageOpportunity) :=
  let prices := fetch_prices w exs sym in
  if (List.length prices <? 2)%nat then Ok opportunities
  else cross_pairs w sym prices opportunities.

Definition _scan_cross_exchange (cfg : Config) (w : World)
    (exs : list string) : Result (list ArbitrageOpportunity) :=
  if (List.length exs <? 2)%nat then Ok []
  else foldM (cross_symbol w exs) (trading_pairs cfg) [].

(** ** _scan_triangular *)

Definition start_amount : Q := 1000.

(** The body of the [try] for one venue and one path; every exception
    (a failed fetch, a zero ask) is caught and leaves the list as it was. *)
Definition tri_path (cfg : Config) (w : World) (name : string)
    (opportunities : list ArbitrageOpportunity)
    (path : string * string * string) : list ArbitrageOpportunity :=
  let '(path0, path1, path2) := path in
  match fetch_ticker w name path0 with
  | None => opportunities
  | Some t0 =>
  match fetch_ticker w name path1 with
  | None => opportunities
  | Some t1 =>
  match fetch_ticker w name path2 with
  | None => opportunities
  | Some t2 =>
      let prices :=
        dict_set path2 (bid t2, ask t2)
          (dict_set path1 (bid t1, ask t1)
             (dict_set path0 (bid t0, ask t0) [])) in
      match pydiv start_amount (ask t0) with
      | Raise _ => opportunities
      | Ok amount1 =>
          let amount2 := amount1 * bid t1 in
          let final_amount := amount2 * bid t2 in
          let profit := (final_amount - start_amount) / start_amount in
          let fees := 3 * fee_rate name / 100 in
          let net := profit - fees in
          if Qgtb net (min_arbitrage_profit_pct cfg / 100)
          then opportunities ++
               [{| opp_id := IdTri name path0
                               (now w TRIANGULAR (2 * List.length opportunities));
                   arb_type := TRIANGULAR;
                   symbol := (path0 ++ "->" ++ path1 ++ "->" ++ path2)%string;
                   buy_exchange := name;
                   buy_price := ask t0;
                   sell_exchange := name;
                   sell_price := bid t2;
                   spread := profit * 100;
                   net_profit := net * 100;
                   gross_profit := profit * 100;
                   max_size := 1000;
                   execution_time_ms := 300;
                   timestamp :=
                     now w TRIANGULAR (2 * List.length opportunities + 1);
                   confidence := 0.7;
                   details := DetailsPath [path0; path1; path2] prices |}]
          else opportunities
      end
  end end end.

Definition _scan_triangular (cfg : Config) (w : World) (exs : list string)
  : Result (list ArbitrageOpportunity) :=
  Ok (fold_left
        (fun opportunities name =>
           fold_left (tri_path cfg w name) triangular_paths opportunities)
        exs []).

(** ** _scan_funding_rates *)

(** The placeholder rate of the source, 0.01% per 8h. *)
Definition funding_rate_estimate : Q := 0.0001.

Definition funding_symbol (w : World)
    (opportunities : list ArbitrageOpportunity) (sym : string)
  : list ArbitrageOpportunity :=
  let funding_rate := funding_rate_estimate in
  let annual_rate := funding_rate * 3 * 365 in
  if Qgtb (Qabs funding_rate) 0.0005
  then
    let direction :=
      if Qgtb funding_rate 0 then "long_spot_short_perp"
      else "short_spot_long_perp" in
    opportunities ++
    [{| opp_id := IdFunding sym
                    (now w FUNDING_RATE (2 * List.length opportunities));
        arb_type := FUNDING_RATE;
        symbol := sym;
        buy_exchange := "binance_spot";
        buy_price := 0;
        sell_exchange := "binance_futures";
        sell_price := 0;
        spread := Qabs funding_rate * 100;
        net_profit := Qabs funding_rate * 100;
        gross_profit := Qabs funding_rate * 100;
        max_size := 10000;
        execution_time_ms := 1000;
        timestamp := now w FUNDING_RATE (2 * List.length opportunities + 1);
        confidence := 0.6;
        details := DetailsFunding funding_rate annual_rate direction |}]
  else opportunities.

Definition _scan_funding_rates (w : World) (exs : list string)
  : Result (list ArbitrageOpportunity) :=
  if mem "binance" exs
  then Ok (fold_left (funding_symbol w) ["BTC/USDT"; "ETH/USDT"] [])
  else Ok [].

(** ** _scan_stablecoins *)

Definition stablecoin_pairs : list string :=
  ["USDC/USDT"; "DAI/USDT"; "BUSD/USDT"].

(** The body of the [try] for one venue and one pair; [pair in
    exchange.markets] raises when the markets are [None]. *)
Definition stable_pair (w : World) (name : string)
    (opportunities : list ArbitrageOpportunity) (pair : string)
  : list ArbitrageOpportunity :=
  match markets w name with
  | None => opportunities
  | Some ms =>
      if mem pair ms then
        match fetch_ticker w name pair with
        | None => opportunities
        | Some ticker =>
            let price := last ticker in
            let deviation := Qabs (price - 1) in
            if Qgtb deviation 0.002 then
              let direction := if Qltb price 1 then "buy" else "sell" in
              opportunities ++
              [{| opp_id := IdStable pair name
                              (now w STABLECOIN (2 * List.length opportunities));
                  arb_type := STABLECOIN;
                  symbol := pair;
                  buy_exchange := name;
                  buy_price := if String.eqb direction "buy"
                               then ask ticker else bid ticker;
                  sell_exchange := name;
                  sell_price := 1;
                  spread := deviation * 100;
                  net_profit := (deviation - 0.001) * 100;
                  gross_profit := deviation * 100;
                  max_size := 50000;
                  execution_time_ms := 200;
                  timestamp :=
                    now w STABLECOIN (2 * List.length opportunities + 1);
                  confidence := 0.5;
                  details := DetailsStable price deviation direction |}]
            else opportunities
        end
      else opportunities
  end.

Definition _scan_stablecoins (w : World) (exs : list string)
  : Result (list ArbitrageOpportunity) :=
  Ok (fold_left
        (fun opportunities name =>
           fold_left (stable_pair w name) stablecoin_pairs opportunities)
        exs []).

(** ** _execute_arbitrage *)

(** A call that went past the size gate: the size, the estimated profit
    (also the ['profit'] of the alert payload) and the opportunity whose
    fields fill the rest of the payload. *)
Record Execution : Type := {
  exec_opportunity : ArbitrageOpportunity;
  exec_size : Q;
  estimated_profit : Q
}.

Definition add_profit (self : Engine) (p : Q) : Engine :=
  {| exchanges := exchanges self;
     total_scans := total_scans self;
     total_opportunities := total_opportunities self;
     total_profit := total_profit self + p |}.

Definition _execute_arbitrage (cfg : Config) (self : Engine)
    (opportunity : ArbitrageOpportunity) (budget : Q)
  : Engine * option Execution :=
  let size := pymin (max_size opportunity) (budget * 0.1) in
  if Qltb size 10 then (self, None)
  else
    let profit := size * (net_profit opportunity / 100) in
    let self' := if paper_trading cfg then add_profit self profit else self in
    (self', Some {| exec_opportunity := opportunity;
                    exec_size := size;
                    estimated_profit := profit |}).

(** ** scan_all *)

(** One call of [_execute_arbitrage] made by [scan_all]. *)
Record GateCall : Type := {
  call_opportunity : ArbitrageOpportunity;
  call_budget : Q;
  call_outcome : option Execution
}.

(** What a call of [scan_all] leaves behind: the engine, the returned
    list, the [results] of [gather] (empty when the detectors were not
    started) and the calls made to the execution gate, in order. *)
Record Cycle : Type := {
  engine : Engine;
  returned : list ArbitrageOpportunity;
  results : list (Result (list ArbitrageOpportunity));
  calls : list GateCall
}.

Definition executions (c : Cycle) : list Execution :=
  flat_map (fun g => match call_outcome g with Some e => [e] | None => [] end)
    (calls c).

(** [list.sort(key=lambda x: x.net_profit, reverse=True)]: a stable sort,
    descending; equal keys keep their order. *)
Fixpoint insert_desc (x : ArbitrageOpportunity)
    (l : list ArbitrageOpportunity) : list ArbitrageOpportunity :=
  match l with
  | [] => [x]
  | y :: l' =>
      if Qle_bool (net_profit y) (net_profit x) then x :: l
      else y :: insert_desc x l'
  end.

Definition sort_desc (l : list ArbitrageOpportunity)
  : list ArbitrageOpportunity :=
  fold_right insert_desc [] l.

(** [for result in results: if isinstance(result, list): extend] *)
Definition merge_results (rs : list (Result (list ArbitrageOpportunity)))
  : list ArbitrageOpportunity :=
  fold_left
    (fun all_opportunities result =>
       match result with
       | Ok l => all_opportunities ++ l
       | Raise _ => all_opportunities
       end)
    rs [].

(** [for opp in profitable[:3]: if opp.confidence >= 0.7: ...] *)
Fixpoint execute_best (cfg : Config) (arb_budget : Q) (self : Engine)
    (best : list ArbitrageOpportunity) : Engine * list GateCall :=
  match best with
  | [] => (self, [])
  | opp :: rest =>
      if Qgeb (confidence opp) 0.7 then
        let '(self1, outcome) := _execute_arbitrage cfg self opp arb_budget in
        let '(self2, log) := execute_best cfg arb_budget self1 rest in
        (self2, {| call_opportunity := opp;
                   call_budget := arb_budget;
                   call_outcome := outcome |} :: log)
      else execute_best cfg arb_budget self rest
  end.

Definition run_detectors (cfg : Config) (w : World) (exs : list string)
  : list (Result (list ArbitrageOpportunity)) :=
  [_scan_cross_exchange cfg w exs;
   _scan_triangular cfg w exs;
   _scan_funding_rates w exs;
   _scan_stablecoins w exs].

(** The filter and the ranking applied to the merged list. *)
Definition rank (cfg : Config) (all_opportunities : list ArbitrageOpportunity)
  : list ArbitrageOpportunity :=
  let min_profit := min_arbitrage_profit_pct cfg / 100 in
  sort_desc (filter (fun o => Qgeb (spread o) min_profit) all_opportunities).

(** [allocation.get('arbitrage_budget', 0)] *)
Definition arb_budget_of (w : World) : Q :=
  match arbitrage_budget w with
  | Some b => b
  | None => 0
  end.

(** The persistence of the statistics ([_save_stats]) and the log lines
    change nothing in the engine and are left out. *)
Definition scan_all (cfg : Config) (w : World) (self : Engine) : Cycle :=
  let exs :=
    match exchanges self with
    | [] => initialize cfg w []
    | _ :: _ => exchanges self
    end in
  let self1 :=
    {| exchanges := exs;
       total_scans := S (total_scans self);
       total_opportunities := total_opportunities self;
       total_profit := total_profit self |} in
  let arb_budget := arb_budget_of w in
  if Qle_bool arb_budget 0 then
    {| engine := self1; returned := []; results := []; calls := [] |}
  else
    let rs := run_detectors cfg w exs in
    let profitable := rank cfg (merge_results rs) in
    let self2 :=
      {| exchanges := exs;
         total_scans := total_scans self1;
         total_opportunities :=
           (total_opportunities self1 + List.length profitable)%nat;
         total_profit := total_profit self1 |} in
    let '(self3, log) :=
      execute_best cfg arb_budget self2 (firstn 3 profitable) in
    {| engine := self3; returned := profitable; results := rs;
       calls := log |}.

(** The polling loop of the orchestrator: one [scan_all] per world. *)
Definition run_cycles (cfg : Config) (ws : list World) (self : Engine)
  : Engine :=
  fold_left (fun self w => engine (scan_all cfg w self)) ws self.

(** The successive calls of [scan_all] made by the polling loop. *)
Fixpoint cycles (cfg : Config) (ws : list World) (self : Engine)
  : list Cycle :=
  match ws with
  | [] => []
  | w :: ws' =>
      let c := scan_all cfg w self in
      c :: cycles cfg ws' (engine c)
  end.

(** ** Vocabulary of the properties *)

(** Whether venue [name] answers the ticker request for [sym]. *)
Definition responds (w : World) (sym name : string) : bool :=
  match fetch_ticker w name sym with
  | Some _ => true
  | None => false
  end.

(** A detector result read as "no opportunities" when it is an exception. *)
Definition result_or_empty (r : Result (list ArbitrageOpportunity))
  : list ArbitrageOpportunity :=
  match r with
  | Ok l => l
  | Raise _ => []
  end.

Definition confident (o : ArbitrageOpportunity) : bool :=
  Qgeb (confidence o) 0.7.

Definition Qsum (l : list Q) : Q := fold_right Qplus 0 l.

(** The fees, in percent, that a detector charges on an opportunity. *)
Definition total_fees_pct (o : ArbitrageOpportunity) : Q :=
  match arb_type o with
  | CROSS_EXCHANGE => fee_rate (buy_exchange o) + fee_rate (sell_exchange o)
  | TRIANGULAR => 3 * fee_rate (buy_exchange o)
  | FUNDING_RATE => 0
  | STABLECOIN => 0.1
  end.

(** The venue handles a call of [scan_all] works with: those of the
    engine, or those [initialize] connects when the engine has none. *)
Definition venues_of (cfg : Config) (w : World) (self : Engine)
  : list string :=
  match exchanges self with
  | [] => initialize cfg w []
  | _ :: _ => exchanges self
  end.

(** What the gate answers for an opportunity and a budget figure. *)
Definition gate_outcome (o : ArbitrageOpportunity) (budget : Q)
  : option Execution :=
  let size := pymin (max_size o) (budget * 0.1) in
  if Qltb size 10 then None
  else Some {| exec_opportunity := o;
               exec_size := size;
               estimated_profit := size * (net_profit o / 100) |}.

(** Ranked: descending net profit. *)
Definition ranked_before (a b : ArbitrageOpportunity) : Prop :=
  net_profit b <= net_profit a.

(** What the detectors guarantee of every opportunity they append: the
    net profit is the gross spread minus the fees, and per strategy the
    sign of the net profit, the size cap and the confidence. *)
Definition detector_fact (cfg : Config) (o : ArbitrageOpportunity) : Prop :=
  net_profit o == gross_profit o - total_fees_pct o /\
  spread o = gross_profit o /\
  match arb_type o with
  | CROSS_EXCHANGE => 0 < net_profit o
  | TRIANGULAR =>
      min_arbitrage_profit_pct cfg < net_profit o /\
      max_size o = 1000 /\ confidence o = 0.7
  | FUNDING_RATE => False
  | STABLECOIN => confidence o = 0.5
  end.

(** Two results agree when both raise the same exception or both return
    related values. *)
Definition Result_rel {B} (R : B -> B -> Prop) (r1 r2 : Result B) : Prop :=
  match r1, r2 with
  | Ok a, Ok b => R a b
  | Raise e1, Raise e2 => e1 = e2
  | _, _ => False
  end.

(** The same world with another clock. *)
Definition with_clock (w : World) (clock : ArbitrageType -> nat -> DateTime)
  : World :=
  {| arbitrage_budget := arbitrage_budget w;
     fetch_ticker := fetch_ticker w;
     markets := markets w;
     now := clock;
     ccxt_available := ccxt_available w;
     connect := connect w |}.

Definition erase_id (i : OppId) : OppId :=
  match i with
  | IdCross s b e _ => IdCross s b e 0%Z
  | IdTri n p _ => IdTri n p 0%Z
  | IdFunding s _ => IdFunding s 0%Z
  | IdStable p n _ => IdStable p n 0%Z
  end.

(** An opportunity with its two clock readings blanked. *)
Definition erase_clock (o : ArbitrageOpportunity) : ArbitrageOpportunity :=
  {| opp_id := erase_id (opp_id o);
     arb_type := arb_type o;
     symbol := symbol o;
     buy_exchange := buy_exchange o;
     buy_price := buy_price o;
     sell_exchange := sell_exchange o;
     sell_price := sell_price o;
     spread := spread o;
     net_profit := net_profit o;
     gross_profit := gross_profit o;
     max_size := max_size o;
     execution_time_ms := execution_time_ms o;
     timestamp := 0%Z;
     confidence := confidence o;
     details := details o |}.

(** Two opportunity lists that differ at most in clock readings. *)
Definition same_modulo_clock (a b : list ArbitrageOpportunity) : Prop :=
  map erase_clock a = map erase_clock b.

(** The decision the gate takes on an opportunity, as a function of the
    opportunity with its clock readings blanked. *)
Definition decision_of (budget : Q) (o : ArbitrageOpportunity)
  : ArbitrageOpportunity * Q * option (Q * Q) :=
  (o, budget,
   match gate_outcome o budget with
   | Some e => Some (exec_size e, estimated_profit e)
   | None => None
   end).

(** The decision taken on one gate call: which opportunity (clock
    readings apart), and the size and estimated profit when executed. *)
Definition decision (g : GateCall)
  : ArbitrageOpportunity * Q * option (Q * Q) :=
  (erase_clock (call_opportunity g), call_budget g,
   match call_outcome g with
   | Some e => Some (exec_size e, estimated_profit e)
   | None => None
   end).

(** The execution gate as the specification words it: each size is capped
    by 10% of the budget that remains, a skipped opportunity consumes
    nothing and a reserved size is deducted for the next opportunity. *)
Fixpoint spec_gate_sizes (remaining : Q)
    (candidates : list ArbitrageOpportunity) : list Q :=
  match candidates with
  | [] => []
  | o :: rest =>
      let size := pymin (max_size o) (remaining * 0.1) in
      if Qltb size 10 then spec_gate_sizes remaining rest
      else size :: spec_gate_sizes (remaining - size) rest
  end.

(** The selection as the specification words it: the top three of the
    opportunities whose confidence meets the bar. *)
Definition spec_selection (ranked : list ArbitrageOpportunity)
  : list ArbitrageOpportunity :=
  firstn 3 (filter confident ranked).

(** ** Scenarios

    Concrete configurations and worlds on which the engine is run below. *)

Definition quote (b a : Q) : Ticker :=
  {| bid := b; ask := a; last := b; quoteVolume := Some 5000000 |}.

(** Venue [low] quotes 99.9/100 and venue [high] 100.5/100.6 on every
    pair of [pairs]; nothing else is listed. *)
Definition spread_book (low high : string) (pairs : list string)
    (name sym : string) : option Ticker :=
  if mem sym pairs then
    if String.eqb name low then Some (quote 99.9 100)
    else if String.eqb name high then Some (quote 100.5 100.6)
    else None
  else None.

Definition wall_clock (start : Z) : ArbitrageType -> nat -> DateTime :=
  fun _ k => (start + Z.of_nat k)%Z.

Definition config_of (min_pct : Q) (pairs venues : list string) : Config :=
  {| min_arbitrage_profit_pct := min_pct;
     trading_pairs := pairs;
     arbitrage_exchanges := venues;
     paper_trading := true;
     binance_api_key := "";
     bybit_api_key := "key";
     okx_api_key := "" |}.

Definition world_of (budget : Q) (book : string -> string -> option Ticker)
    (listed : string -> option (list string)) : World :=
  {| arbitrage_budget := Some budget;
     fetch_ticker := book;
     markets := listed;
     now := wall_clock 1700000000;
     ccxt_available := true;
     connect := fun _ => true |}.

Definition no_markets : string -> option (list string) := fun _ => None.

(** A 0.5% spread between binance and bybit under a 0.4% threshold. *)
Definition cfg_strict : Config :=
  config_of 0.4 ["BTC/USDT"] ["binance"; "bybit"; "okx"].

Definition world_binance_bybit : World :=
  world_of 1000 (spread_book "binance" "bybit" ["BTC/USDT"]) no_markets.

(** The same spread between two venues charging 0.1% each. *)
Definition world_kucoin_mexc : World :=
  world_of 1000 (spread_book "kucoin" "mexc" ["BTC/USDT"]) no_markets.

Definition engine_kucoin_mexc : Engine :=
  {| exchanges := ["kucoin"; "mexc"]; total_scans := 0;
     total_opportunities := 0; total_profit := 0 |}.

(** Three pairs with the same spread: three confident opportunities. *)
Definition cfg_three_pairs : Config :=
  config_of 0.08 ["BTC/USDT"; "ETH/USDT"; "SOL/USDT"] ["binance"; "bybit"].

Definition world_three_pairs : World :=
  world_of 1000
    (spread_book "binance" "bybit" ["BTC/USDT"; "ETH/USDT"; "SOL/USDT"])
    no_markets.

(** Three stablecoins 1% off their peg on binance, and one cross-exchange
    spread. *)
Definition cfg_default : Config :=
  config_of 0.08 ["BTC/USDT"] ["binance"; "bybit"].

Definition world_depeg : World :=
  world_of 1000
    (fun name sym =>
       if mem sym stablecoin_pairs then
         if String.eqb name "binance" then Some (quote 0.99 0.99) else None
       else spread_book "binance" "bybit" ["BTC/USDT"] name sym)
    (fun name =>
       if String.eqb name "binance" then Some stablecoin_pairs else None).

(** A triangle on one venue returning [final] for 1000. *)
Definition triangle_book (venue : string) (final : Q)
    (name sym : string) : option Ticker :=
  if String.eqb name venue then
    if String.eqb sym "BTC/USDT" then Some (quote 999 1000)
    else if String.eqb sym "ETH/BTC" then Some (quote 1 1)
    else if String.eqb sym "ETH/USDT" then Some (quote final final)
    else None
  else None.

(** A negative threshold and a triangle that loses money after fees. *)
Definition cfg_negative : Config := config_of (-1) [] ["binance"].

Definition world_thin_triangle : World :=
  world_of 1000 (triangle_book "binance" 1001) no_markets.

(** The boundary triangle: 1000 becomes 1003 on a venue charging 0.1%. *)
Definition world_boundary_triangle : World :=
  world_of 1000 (triangle_book "kucoin" 1003) no_markets.

(** No budget allocated to arbitrage. *)
Definition world_no_budget : World :=
  world_of 0 (spread_book "binance" "bybit" ["BTC/USDT"]) no_markets.

(** A venue quoting a zero ask makes the cross-exchange detector raise
    while a triangle on binance is profitable. *)
Definition world_zero_ask : World :=
  world_of 1000
    (fun name sym =>
       if String.eqb name "bybit" then Some (quote 0 0)
       else triangle_book "binance" 1010 name sym)
    no_markets.

(** ** More vocabulary *)

(** Whether [initialize] keeps venue [name]: it must be one of the three
    configured venues, have an API key unless it is binance, and its
    handle must be constructed. *)
Definition connectable (cfg : Config) (w : World) (name : string) : bool :=
  match exchange_configs cfg name with
  | Some apiKey =>
      (negb (String.eqb apiKey "") || String.eqb name "binance")
      && connect w name
  | None => false
  end.

(** A price entry whose ask is zero. *)
Definition zero_ask (e : string * PriceEntry) : bool :=
  Qeq_bool (pe_ask (snd e)) 0.

(** A symbol on which at least two venues respond and one of them quotes
    a zero ask. *)
Definition symbol_raises (w : World) (exs : list string) (sym : string)
  : bool :=
  negb (List.length (fetch_prices w exs sym) <? 2)%nat
  && existsb zero_ask (fetch_prices w exs sym).

Definition cross_raises (cfg : Config) (w : World) (exs : list string)
  : bool :=
  negb (List.length exs <? 2)%nat
  && existsb (symbol_raises w exs) (trading_pairs cfg).

(** The shape of the opportunities of each detector, beyond the
    accounting identity of [detector_fact]. *)
Definition emitted_shape (o : ArbitrageOpportunity) : Prop :=
  match arb_type o with
  | CROSS_EXCHANGE =>
      fee_rate (buy_exchange o) + fee_rate (sell_exchange o) < spread o /\
      ((confidence o = 0.8 /\ 0.2 < spread o) \/
       (confidence o = 0.6 /\ spread o <= 0.2)) /\
      execution_time_ms o = 500%Z
  | TRIANGULAR =>
      confidence o = 0.7 /\ buy_exchange o = sell_exchange o
  | FUNDING_RATE => False
  | STABLECOIN =>
      confidence o = 0.5 /\ 0.2 < spread o /\
      net_profit o == spread o - 0.1 /\
      max_size o = 50000 /\ sell_price o = 1 /\
      buy_exchange o = sell_exchange o
  end.

(** The gate call made for an opportunity. *)
Definition gate_call (budget : Q) (o : ArbitrageOpportunity) : GateCall :=
  {| call_opportunity := o;
     call_budget := budget;
     call_outcome := gate_outcome o budget |}.

(** The same configuration with another trading mode. *)
Definition with_paper_trading (cfg : Config) (paper : bool) : Config :=
  {| min_arbitrage_profit_pct := min_arbitrage_profit_pct cfg;
     trading_pairs := trading_pairs cfg;
     arbitrage_exchanges := arbitrage_exchanges cfg;
     paper_trading := paper;
     binance_api_key := binance_api_key cfg;
     bybit_api_key := bybit_api_key cfg;
     okx_api_key := okx_api_key cfg |}.

(** ** SharedStateManager (src/main_v5.py)

    The state object the engine reads its allocation from and saves its
    statistics to.  Stored values are Python values; [json.dumps] and
    [json.loads] are given by a codec, [loads] answering [None] when it
    raises.  The Redis server is the dict of its keys; whether a Redis
    call goes through or raises is an input of each call. *)

#[local] Unset Elimination Schemes.

Inductive PyValue : Type :=
| PyNone
| PyBool (b : bool)
| PyInt (z : Z)
| PyFloat (q : Q)
| PyStr (s : string)
| PyList (l : list PyValue)
| PyDict (d : list (string * PyValue)).

#[local] Set Elimination Schemes.

Record Json : Type := {
  dumps : PyValue -> string;
  loads : string -> option PyValue
}.

Record SharedStateManager : Type := {
  (** [self.redis]: [None], or the keys held by the server *)
  redis : option (list (string * string));
  local_cache : list (string * PyValue)
}.

(** [SharedStateManager.__init__] *)
Definition fresh_state : SharedStateManager :=
  {| redis := None; local_cache := [] |}.

(** [f"tradingbot:{key}"] *)
Definition redis_key (key : string) : string :=
  ("tradingbot:" ++ key)%string.

(** [SharedStateManager.set]; [link_up] tells whether [redis.set] goes
    through, its exception being swallowed otherwise. *)
Definition state_set (js : Json) (link_up : bool)
    (self : SharedStateManager) (key : string) (value : PyValue)
  : SharedStateManager :=
  let data := dumps js value in
  {| redis :=
       match redis self with
       | Some db =>
           if link_up then Some (dict_set (redis_key key) data db)
           else Some db
       | None => None
       end;
     local_cache := dict_set key value (local_cache self) |}.

(** [SharedStateManager.get]; [link_up] tells whether [redis.get] goes
    through.  Empty data is falsy; a failing [json.loads] is swallowed. *)
Definition state_get (js : Json) (link_up : bool)
    (self : SharedStateManager) (key : string) (default : PyValue)
  : PyValue :=
  let cached :=
    match dict_get key (local_cache self) with
    | Some v => v
    | None => default
    end in
  match redis self with
  | Some db =>
      if link_up then
        match dict_get (redis_key key) db with
        | Some data =>
            if String.eqb data "" then cached
            else match loads js data with
                 | Some v => v
                 | None => cached
                 end
        | None => cached
        end
      else cached
  | None => cached
  end.

(** Removing a key from a dict. *)
Definition dict_del {V} (k : string) (d : list (string * V))
  : list (string * V) :=
  filter (fun kv => negb (String.eqb k (fst kv))) d.

(** What the server does when the [ex=] delay of a key has passed. *)
Definition redis_expire (self : SharedStateManager) (key : string)
  : SharedStateManager :=
  {| redis :=
       match redis self with
       | Some db => Some (dict_del (redis_key key) db)
       | None => None
       end;
     local_cache := local_cache self |}.

(** The dict built by [_save_stats]; [last_scan] is the rendered
    [datetime.now().isoformat()]. *)
Definition stats_dict (self : Engine) (last_scan : string) : PyValue :=
  PyDict
    [("total_scans", PyInt (Z.of_nat (total_scans self)));
     ("total_opportunities", PyInt (Z.of_nat (total_opportunities self)));
     ("total_profit", PyFloat (total_profit self));
     ("last_scan", PyStr last_scan)].

Definition _save_stats (js : Json) (link_up : bool) (self : Engine)
    (state : SharedStateManager) (last_scan : string)
  : SharedStateManager :=
  state_set js link_up state "arbitrage_stats" (stats_dict self last_scan).

Definition get_stats (js : Json) (link_up : bool)
    (state : SharedStateManager) : PyValue :=
  state_get js link_up state "arbitrage_stats"
    (PyDict [("total_scans", PyInt 0);
             ("total_opportunities", PyInt 0);
             ("total_profit", PyInt 0)]).

(** The effect of one call of [scan_all] on the shared state: the
    statistics are saved at the end of a cycle that scanned, from the
    engine as the executions left it; the early return of a cycle without
    budget comes before [_save_stats]. *)
Definition scan_all_state (js : Json) (link_up : bool) (cfg : Config)
    (w : World) (self : Engine) (state : SharedStateManager)
    (last_scan : string) : SharedStateManager :=
  if Qle_bool (arb_budget_of w) 0 then state
  else _save_stats js link_up (engine (scan_all cfg w self)) state last_scan.

(** ** More scenarios *)

(** The ccxt import failed. *)
Definition world_no_ccxt : World :=
  {| arbitrage_budget := Some 1000;
     fetch_ticker := spread_book "binance" "bybit" ["BTC/USDT"];
     markets := no_markets;
     now := wall_clock 1700000000;
     ccxt_available := false;
     connect := fun _ => true |}.

(** A budget under 100. *)
Definition world_small_budget : World :=
  world_of 99 (spread_book "binance" "bybit" ["BTC/USDT"]) no_markets.

(** A ticker that carries no [quoteVolume]. *)
Definition quote_without_volume (b a : Q) : Ticker :=
  {| bid := b; ask := a; last := b; quoteVolume := None |}.

(** A codec that knows a single value. *)
Definition toy_json : Json :=
  {| dumps := fun _ => "null"; loads := fun _ => Some PyNone |}.

(** A state whose server still holds an older payload. *)
Definition state_with_old_payload : SharedStateManager :=
  {| redis := Some [(redis_key "arbitrage_stats", "old")];
     local_cache := [] |}.

(** * Properties *)

(** ** Comparisons and arithmetic *)

Lemma Qltb_lt (x y : Q) : Qltb x y = true <-> x < y.
Proof.
  unfold Qltb. rewrite negb_true_iff.
  destruct (Qle_bool y x) eqn:E.
  - apply Qle_bool_iff in E. split; [discriminate | intro H; lra].
  - split; [intros _ | reflexivity].
    apply Qnot_le_lt. intro H. apply Qle_bool_iff in H. congruence.
Qed.

Lemma Qltb_ge (x y : Q) : Qltb x y = false <-> y <= x.
Proof.
  unfold Qltb. rewrite negb_false_iff. apply Qle_bool_iff.
Qed.

Lemma Qgtb_gt (x y : Q) : Qgtb x y = true <-> y < x.
Proof. apply Qltb_lt. Qed.

Lemma Qgtb_le (x y : Q) : Qgtb x y = false <-> x <= y.
Proof. apply Qltb_ge. Qed.

Lemma Qgeb_ge (x y : Q) : Qgeb x y = true <-> y <= x.
Proof. apply Qle_bool_iff. Qed.

Lemma Qle_bool_gt (x y : Q) : Qle_bool x y = false <-> y < x.
Proof.
  destruct (Qle_bool x y) eqn:E.
  - apply Qle_bool_iff in E. split; [discriminate | intro H; lra].
  - split; [intros _ | reflexivity].
    apply Qnot_le_lt. intro H. apply Qle_bool_iff in H. congruence.
Qed.

Lemma pymin_le_l (a b : Q) : pymin a b <= a.
Proof.
  unfold pymin. destruct (Qltb b a) eqn:E.
  - apply Qltb_lt in E. lra.
  - lra.
Qed.

Lemma pymin_le_r (a b : Q) : pymin a b <= b.
Proof.
  unfold pymin. destruct (Qltb b a) eqn:E.
  - lra.
  - apply Qltb_ge in E. exact E.
Qed.

(** Python's [min] is the minimum. *)
Lemma pymin_Qmin (a b : Q) : pymin a b == Qmin a b.
Proof.
  unfold pymin. destruct (Qltb b a) eqn:E.
  - apply Qltb_lt in E. symmetry. apply Q.min_r. lra.
  - apply Qltb_ge in E. symmetry. apply Q.min_l. exact E.
Qed.

Lemma pydiv_Ok (a b q : Q) :
  pydiv a b = Ok q <-> ~ b == 0 /\ q = a / b.
Proof.
  unfold pydiv. destruct (Qeq_bool b 0) eqn:E.
  - apply Qeq_bool_iff in E. split; [discriminate | tauto].
  - split.
    + intros [= <-]. split; [| reflexivity].
      intro H. apply Qeq_bool_iff in H. congruence.
    + intros [_ ->]. reflexivity.
Qed.

(** ** Loops *)

Lemma fold_left_inv {A B} (P : B -> Prop) (body : B -> A -> B)
    (l : list A) :
  (forall acc x, In x l -> P acc -> P (body acc x)) ->
  forall acc, P acc -> P (fold_left body l acc).
Proof.
  induction l as [| x l IH]; intros Hbody acc Hacc; simpl.
  - exact Hacc.
  - apply IH.
    + intros acc' y Hy. apply Hbody. right. exact Hy.
    + apply Hbody; [left; reflexivity | exact Hacc].
Qed.

Lemma foldM_inv {A B} (P : B -> Prop) (body : B -> A -> Result B)
    (l : list A) :
  (forall acc x acc', P acc -> body acc x = Ok acc' -> P acc') ->
  forall acc r, P acc -> foldM body l acc = Ok r -> P r.
Proof.
  intros Hbody. induction l as [| x l IH]; intros acc r Hacc; simpl.
  - intros [= <-]. exact Hacc.
  - destruct (body acc x) as [acc' |] eqn:E; simpl; [| discriminate].
    apply IH. eapply Hbody; eauto.
Qed.

(** Two runs of a loop whose bodies keep a relation keep it. *)
Lemma fold_left_rel {A B} (R : B -> B -> Prop) (f g : B -> A -> B)
    (l : list A) :
  (forall a b x, R a b -> R (f a x) (g b x)) ->
  forall a b, R a b -> R (fold_left f l a) (fold_left g l b).
Proof.
  intros Hstep. induction l as [| x l IH]; intros a b Hab; simpl.
  - exact Hab.
  - apply IH. apply Hstep. exact Hab.
Qed.

Lemma foldM_rel {A B} (R : B -> B -> Prop) (f g : B -> A -> Result B)
    (l : list A) :
  (forall a b x, R a b -> Result_rel R (f a x) (g b x)) ->
  forall a b, R a b -> Result_rel R (foldM f l a) (foldM g l b).
Proof.
  intros Hstep. induction l as [| x l IH]; intros a b Hab; simpl.
  - exact Hab.
  - specialize (Hstep a b x Hab).
    destruct (f a x) as [a' | e1], (g b x) as [b' | e2]; simpl in *;
      try contradiction.
    + apply IH. exact Hstep.
    + exact Hstep.
Qed.

(** ** What the detectors emit *)

Lemma Forall_snoc {A} (P : A -> Prop) (l : list A) (x : A) :
  Forall P l -> P x -> Forall P (l ++ [x]).
Proof.
  intros Hl Hx. apply Forall_app. split; [exact Hl | repeat constructor].
  exact Hx.
Qed.

Lemma cross_opp_fact cfg w sym buy sell pbuy psell p1 p2 s acc :
  Qgtb s ((fee_rate buy + fee_rate sell) / 100) = true ->
  detector_fact cfg
    (cross_opp w sym buy sell pbuy psell p1 p2 s
       (fee_rate buy + fee_rate sell) acc).
Proof.
  intros H. apply Qgtb_gt in H.
  unfold detector_fact, total_fees_pct; simpl.
  split; [field | split; [reflexivity |]].
  assert (E : (fee_rate buy + fee_rate sell) / 100 * 100
              == fee_rate buy + fee_rate sell) by field.
  lra.
Qed.

Lemma cross_pair_fact cfg w sym e1 e2 acc r :
  Forall (detector_fact cfg) acc ->
  cross_pair w sym e1 e2 acc = Ok r ->
  Forall (detector_fact cfg) r.
Proof.
  destruct e1 as [ex1 p1], e2 as [ex2 p2]. unfold cross_pair.
  intros Hacc.
  destruct (pydiv (pe_bid p2 - pe_ask p1) (pe_ask p1)) as [s12 |];
    simpl; [| discriminate].
  destruct (pydiv (pe_bid p1 - pe_ask p2) (pe_ask p2)) as [s21 |];
    simpl; [| discriminate].
  intros [= <-].
  assert (H1 : Forall (detector_fact cfg)
                 (if Qgtb s12 ((fee_rate ex1 + fee_rate ex2) / 100)
                  then acc ++ [cross_opp w sym ex1 ex2 p1 p2 p1 p2 s12
                                 (fee_rate ex1 + fee_rate ex2) acc]
                  else acc)).
  { destruct (Qgtb s12 _) eqn:E; [| exact Hacc].
    apply Forall_snoc; [exact Hacc |]. apply cross_opp_fact. exact E. }
  destruct (Qgtb s21 _) eqn:E; [| exact H1].
  apply Forall_snoc; [exact H1 |].
  (* the fees are summed in enumeration order, the venues are swapped *)
  assert (F : detector_fact cfg
                (cross_opp w sym ex2 ex1 p2 p1 p1 p2 s21
                   (fee_rate ex2 + fee_rate ex1)
                   (if Qgtb s12 ((fee_rate ex1 + fee_rate ex2) / 100)
                    then acc ++ [cross_opp w sym ex1 ex2 p1 p2 p1 p2 s12
                                   (fee_rate ex1 + fee_rate ex2) acc]
                    else acc))).
  { apply cross_opp_fact. apply Qgtb_gt. apply Qgtb_gt in E.
    assert (C : (fee_rate ex2 + fee_rate ex1) / 100
                == (fee_rate ex1 + fee_rate ex2) / 100) by field.
    lra. }
  unfold detector_fact, total_fees_pct in *; simpl in *.
  destruct F as (F1 & F2 & F3).
  split; [| split; [reflexivity |]].
  - field.
  - assert (C : (fee_rate ex2 + fee_rate ex1) / 100
                == (fee_rate ex1 + fee_rate ex2) / 100) by field.
    lra.
Qed.

Lemma cross_pairs_fact cfg w sym prices :
  forall acc r,
    Forall (detector_fact cfg) acc ->
    cross_pairs w sym prices acc = Ok r ->
    Forall (detector_fact cfg) r.
Proof.
  induction prices as [| e1 rest IH]; intros acc r Hacc; simpl.
  - intros [= <-]. exact Hacc.
  - destruct (foldM _ rest acc) as [acc' |] eqn:E; simpl; [| discriminate].
    apply IH. revert E.
    apply foldM_inv with (P := Forall (detector_fact cfg)); [| exact Hacc].
    intros a x a' Ha Hx. eapply cross_pair_fact; eauto.
Qed.

Lemma scan_cross_exchange_fact cfg w exs l :
  _scan_cross_exchange cfg w exs = Ok l -> Forall (detector_fact cfg) l.
Proof.
  unfold _scan_cross_exchange.
  destruct (List.length exs <? 2)%nat.
  - intros [= <-]. constructor.
  - apply foldM_inv with (P := Forall (detector_fact cfg)); [| constructor].
    intros acc sym acc' Hacc. unfold cross_symbol.
    destruct (List.length (fetch_prices w exs sym) <? 2)%nat.
    + intros [= <-]. exact Hacc.
    + apply cross_pairs_fact. exact Hacc.
Qed.

Lemma tri_path_fact cfg w name acc path :
  Forall (detector_fact cfg) acc ->
  Forall (detector_fact cfg) (tri_path cfg w name acc path).
Proof.
  intros Hacc. destruct path as [[path0 path1] path2]. unfold tri_path.
  destruct (fetch_ticker w name path0) as [t0 |]; [| exact Hacc].
  destruct (fetch_ticker w name path1) as [t1 |]; [| exact Hacc].
  destruct (fetch_ticker w name path2) as [t2 |]; [| exact Hacc].
  destruct (pydiv start_amount (ask t0)) as [amount1 |]; [| exact Hacc].
  destruct (Qgtb _ _) eqn:E; [| exact Hacc].
  apply Forall_snoc; [exact Hacc |].
  apply Qgtb_gt in E. unfold start_amount in *.
  unfold detector_fact, total_fees_pct; simpl.
  split; [field | split; [reflexivity |]].
  split; [| split; reflexivity].
  assert (C : min_arbitrage_profit_pct cfg / 100 * 100
              == min_arbitrage_profit_pct cfg) by field.
  lra.
Qed.

Lemma scan_triangular_fact cfg w exs l :
  _scan_triangular cfg w exs = Ok l -> Forall (detector_fact cfg) l.
Proof.
  unfold _scan_triangular. intros [= <-].
  apply fold_left_inv with (P := Forall (detector_fact cfg)); [| constructor].
  intros acc name _ Hacc.
  apply (@fold_left_inv _ _ (Forall (detector_fact cfg))
           (tri_path cfg w name) triangular_paths); [| exact Hacc].
  intros acc' path _. apply tri_path_fact.
Qed.

Lemma stable_pair_fact cfg w name acc pair :
  Forall (detector_fact cfg) acc ->
  Forall (detector_fact cfg) (stable_pair w name acc pair).
Proof.
  intros Hacc. unfold stable_pair.
  destruct (markets w name) as [ms |]; [| exact Hacc].
  destruct (mem pair ms); [| exact Hacc].
  destruct (fetch_ticker w name pair) as [ticker |]; [| exact Hacc].
  destruct (Qgtb _ _); [| exact Hacc].
  apply Forall_snoc; [exact Hacc |].
  unfold detector_fact, total_fees_pct; simpl.
  split; [field | split; reflexivity].
Qed.

Lemma scan_stablecoins_fact cfg w exs l :
  _scan_stablecoins w exs = Ok l -> Forall (detector_fact cfg) l.
Proof.
  unfold _scan_stablecoins. intros [= <-].
  apply fold_left_inv with (P := Forall (detector_fact cfg)); [| constructor].
  intros acc name _ Hacc.
  apply (@fold_left_inv _ _ (Forall (detector_fact cfg))
           (stable_pair w name) stablecoin_pairs); [| exact Hacc].
  intros acc' pair _. apply stable_pair_fact.
Qed.

Lemma funding_symbol_skip w acc sym : funding_symbol w acc sym = acc.
Proof. reflexivity. Qed.

Lemma scan_funding_rates_nil w exs : _scan_funding_rates w exs = Ok [].
Proof.
  unfold _scan_funding_rates. destruct (mem "binance" exs); reflexivity.
Qed.

(** ** Merging, filtering and ranking *)

Lemma merge_results_app rs :
  forall acc,
    fold_left
      (fun all_opportunities result =>
         match result with
         | Ok l => all_opportunities ++ l
         | Raise _ => all_opportunities
         end) rs acc
    = acc ++ flat_map result_or_empty rs.
Proof.
  induction rs as [| r rs IH]; intros acc; simpl.
  - symmetry. apply app_nil_r.
  - rewrite IH. destruct r as [l | e]; simpl.
    + symmetry. apply app_assoc.
    + reflexivity.
Qed.

Lemma merge_results_flat rs :
  merge_results rs = flat_map result_or_empty rs.
Proof. unfold merge_results. apply merge_results_app. Qed.

Lemma insert_desc_perm x l : Permutation (insert_desc x l) (x :: l).
Proof.
  induction l as [| y l IH]; simpl.
  - apply Permutation_refl.
  - destruct (Qle_bool (net_profit y) (net_profit x)).
    + apply Permutation_refl.
    + eapply perm_trans; [apply perm_skip; exact IH | apply perm_swap].
Qed.

Lemma sort_desc_perm l : Permutation (sort_desc l) l.
Proof.
  induction l as [| x l IH]; simpl.
  - constructor.
  - eapply perm_trans; [apply insert_desc_perm | apply perm_skip; exact IH].
Qed.

Lemma sort_desc_length l : List.length (sort_desc l) = List.length l.
Proof. apply Permutation_length. apply sort_desc_perm. Qed.

Lemma insert_desc_sorted x l :
  StronglySorted ranked_before l ->
  StronglySorted ranked_before (insert_desc x l).
Proof.
  induction 1 as [| y l Hl IH Hy]; simpl.
  - constructor; constructor.
  - destruct (Qle_bool (net_profit y) (net_profit x)) eqn:E.
    + apply Qle_bool_iff in E.
      constructor; [constructor; assumption |].
      constructor; [exact E |].
      eapply Forall_impl; [| exact Hy].
      unfold ranked_before. intros z Hz. lra.
    + apply Qle_bool_gt in E.
      constructor; [exact IH |].
      eapply Permutation_Forall;
        [apply Permutation_sym; apply insert_desc_perm |].
      constructor; [unfold ranked_before; lra | exact Hy].
Qed.

Lemma sort_desc_sorted l : StronglySorted ranked_before (sort_desc l).
Proof.
  induction l as [| x l IH]; simpl.
  - constructor.
  - apply insert_desc_sorted. exact IH.
Qed.

Lemma rank_In cfg l o :
  In o (rank cfg l) ->
  In o l /\ min_arbitrage_profit_pct cfg / 100 <= spread o.
Proof.
  unfold rank. intros H.
  apply (Permutation_in _ (sort_desc_perm _)) in H.
  apply filter_In in H. destruct H as [H1 H2].
  split; [exact H1 | apply Qgeb_ge; exact H2].
Qed.

Lemma rank_sorted cfg l : StronglySorted ranked_before (rank cfg l).
Proof. apply sort_desc_sorted. Qed.

Lemma StronglySorted_firstn {A} (R : A -> A -> Prop) (l : list A) :
  StronglySorted R l -> forall n, StronglySorted R (firstn n l).
Proof.
  induction 1 as [| x l Hl IH Hx]; intros n.
  - rewrite firstn_nil. constructor.
  - destruct n as [| n]; simpl; [constructor |].
    constructor; [apply IH |].
    apply Forall_forall. intros y Hy.
    rewrite Forall_forall in Hx. apply Hx.
    eapply (In_nth_error) in Hy. destruct Hy as [k Hk].
    apply nth_error_In with k.
    rewrite nth_error_firstn in Hk.
    destruct (k <? n)%nat; [exact Hk | discriminate].
Qed.

Lemma StronglySorted_filter {A} (R : A -> A -> Prop) (f : A -> bool)
    (l : list A) :
  StronglySorted R l -> StronglySorted R (filter f l).
Proof.
  induction 1 as [| x l Hl IH Hx]; simpl.
  - constructor.
  - destruct (f x); [| exact IH].
    constructor; [exact IH |].
    apply Forall_forall. intros y Hy. apply filter_In in Hy.
    rewrite Forall_forall in Hx. apply Hx. tauto.
Qed.

Lemma detectors_fact cfg w exs :
  Forall (detector_fact cfg) (merge_results (run_detectors cfg w exs)).
Proof.
  rewrite merge_results_flat. unfold run_detectors. simpl.
  rewrite app_nil_r.
  repeat (apply Forall_app; split).
  - destruct (_scan_cross_exchange cfg w exs) as [l |] eqn:E; simpl.
    + eapply scan_cross_exchange_fact; eauto.
    + constructor.
  - eapply scan_triangular_fact. reflexivity.
  - rewrite scan_funding_rates_nil. constructor.
  - eapply scan_stablecoins_fact. reflexivity.
Qed.

Lemma ranked_fact cfg w exs :
  Forall (detector_fact cfg) (rank cfg (merge_results (run_detectors cfg w exs))).
Proof.
  apply Forall_forall. intros o Ho. apply rank_In in Ho.
  destruct Ho as [Ho _].
  pose proof (detectors_fact cfg w exs) as F.
  rewrite Forall_forall in F. apply F. exact Ho.
Qed.

(** ** The execution gate *)

Lemma execute_arbitrage_outcome cfg self o budget :
  snd (_execute_arbitrage cfg self o budget) = gate_outcome o budget.
Proof.
  unfold _execute_arbitrage, gate_outcome.
  destruct (Qltb (pymin (max_size o) (budget * 0.1)) 10); reflexivity.
Qed.

(** The gate changes nothing but the cumulative profit. *)
Lemma execute_arbitrage_frame cfg self o budget :
  let self' := fst (_execute_arbitrage cfg self o budget) in
  exchanges self' = exchanges self /\
  total_scans self' = total_scans self /\
  total_opportunities self' = total_opportunities self.
Proof.
  unfold _execute_arbitrage.
  destruct (Qltb (pymin (max_size o) (budget * 0.1)) 10); simpl; auto.
  destruct (paper_trading cfg); simpl; auto.
Qed.

Lemma execute_arbitrage_profit cfg self o budget :
  0 <= net_profit o ->
  total_profit self
  <= total_profit (fst (_execute_arbitrage cfg self o budget)).
Proof.
  intros Hnet. unfold _execute_arbitrage.
  destruct (Qltb (pymin (max_size o) (budget * 0.1)) 10) eqn:E; simpl.
  - lra.
  - destruct (paper_trading cfg); simpl; [| lra].
    apply Qltb_ge in E.
    assert (D : net_profit o / 100 * 100 == net_profit o) by field.
    nra.
Qed.

Lemma execute_best_calls cfg budget best :
  forall self,
    map call_opportunity (snd (execute_best cfg budget self best))
    = filter confident best.
Proof.
  induction best as [| o rest IH]; intros self; simpl.
  - reflexivity.
  - unfold confident at 1.
    destruct (Qgeb (confidence o) 0.7).
    + destruct (_execute_arbitrage cfg self o budget) as [self1 out].
      specialize (IH self1).
      destruct (execute_best cfg budget self1 rest) as [self2 log].
      simpl in *. f_equal. exact IH.
    + apply IH.
Qed.

Lemma execute_best_outcomes cfg budget best :
  forall self,
    Forall
      (fun g =>
         call_budget g = budget /\
         call_outcome g = gate_outcome (call_opportunity g) budget)
      (snd (execute_best cfg budget self best)).
Proof.
  induction best as [| o rest IH]; intros self; simpl.
  - constructor.
  - destruct (Qgeb (confidence o) 0.7).
    + pose proof (execute_arbitrage_outcome cfg self o budget) as Hout.
      destruct (_execute_arbitrage cfg self o budget) as [self1 out].
      specialize (IH self1).
      destruct (execute_best cfg budget self1 rest) as [self2 log].
      simpl in *. constructor; [split; [reflexivity | exact Hout] | exact IH].
    + apply IH.
Qed.

Lemma execute_best_frame cfg budget best :
  forall self,
    let self' := fst (execute_best cfg budget self best) in
    exchanges self' = exchanges self /\
    total_scans self' = total_scans self /\
    total_opportunities self' = total_opportunities self.
Proof.
  induction best as [| o rest IH]; intros self; simpl.
  - auto.
  - destruct (Qgeb (confidence o) 0.7).
    + pose proof (execute_arbitrage_frame cfg self o budget) as Hf.
      destruct (_execute_arbitrage cfg self o budget) as [self1 out].
      specialize (IH self1).
      destruct (execute_best cfg budget self1 rest) as [self2 log].
      simpl in *. intuition congruence.
    + apply IH.
Qed.

Lemma execute_best_profit cfg budget best :
  Forall (fun o => confident o = true -> 0 <= net_profit o) best ->
  forall self,
    total_profit self
    <= total_profit (fst (execute_best cfg budget self best)).
Proof.
  induction 1 as [| o rest Ho Hrest IH]; intros self; simpl.
  - lra.
  - unfold confident in Ho.
    destruct (Qgeb (confidence o) 0.7).
    + pose proof (execute_arbitrage_profit cfg self o budget (Ho eq_refl))
        as Hp.
      destruct (_execute_arbitrage cfg self o budget) as [self1 out].
      specialize (IH self1).
      destruct (execute_best cfg budget self1 rest) as [self2 log].
      simpl in *. lra.
    + apply IH.
Qed.

Lemma execute_best_nil cfg budget self :
  execute_best cfg budget self [] = (self, []).
Proof. reflexivity. Qed.

(** ** The scan cycle unfolded *)

Lemma scan_all_skipped cfg w self :
  arb_budget_of w <= 0 ->
  scan_all cfg w self
  = {| engine := {| exchanges := venues_of cfg w self;
                    total_scans := S (total_scans self);
                    total_opportunities := total_opportunities self;
                    total_profit := total_profit self |};
       returned := []; results := []; calls := [] |}.
Proof.
  intros H. apply Qle_bool_iff in H. unfold scan_all. rewrite H.
  reflexivity.
Qed.

Lemma scan_all_funded cfg w self :
  0 < arb_budget_of w ->
  let exs := venues_of cfg w self in
  let profitable := rank cfg (merge_results (run_detectors cfg w exs)) in
  let gate :=
    execute_best cfg (arb_budget_of w)
      {| exchanges := exs;
         total_scans := S (total_scans self);
         total_opportunities :=
           (total_opportunities self + List.length profitable)%nat;
         total_profit := total_profit self |}
      (firstn 3 profitable) in
  scan_all cfg w self
  = {| engine := fst gate; returned := profitable;
       results := run_detectors cfg w exs; calls := snd gate |}.
Proof.
  intros H. apply Qle_bool_gt in H. unfold scan_all. rewrite H.
  fold (venues_of cfg w self). simpl.
  destruct (execute_best _ _ _ _) as [self3 log]. reflexivity.
Qed.

Lemma budget_cases (w : World) :
  arb_budget_of w <= 0 \/ 0 < arb_budget_of w.
Proof.
  destruct (Qlt_le_dec 0 (arb_budget_of w)); [right | left]; assumption.
Qed.

(** What the filter stage really guarantees of a returned opportunity:
    the detector's accounting identity, and a gross spread (in percent)
    of at least a hundredth of the configured percentage. *)
Lemma returned_fact cfg w self o :
  In o (returned (scan_all cfg w self)) ->
  detector_fact cfg o /\ min_arbitrage_profit_pct cfg / 100 <= spread o.
Proof.
  destruct (budget_cases w) as [Hb | Hb].
  - rewrite (scan_all_skipped cfg w self Hb). simpl. contradiction.
  - rewrite (scan_all_funded cfg w self Hb). simpl. intros Ho. split.
    + pose proof (ranked_fact cfg w (venues_of cfg w self)) as F.
      rewrite Forall_forall in F. apply F. exact Ho.
    + apply rank_In in Ho. tauto.
Qed.

(** ** Funding rates *)

(** C10 : For every engine state and configuration the funding-rate
    detector returns the empty list: the placeholder rate 0.0001 never
    exceeds the 0.0005 threshold, so the emission branch of the loop body
    is never taken and no opportunity of a scan cycle is a funding-rate
    opportunity. *)
Theorem funding_rates_never_emit :
  (forall w exs, _scan_funding_rates w exs = Ok []) /\
  (forall w opportunities sym,
      funding_symbol w opportunities sym = opportunities) /\
  Qgtb (Qabs funding_rate_estimate) 0.0005 = false /\
  (forall cfg w self o,
      In o (returned (scan_all cfg w self)) -> arb_type o <> FUNDING_RATE).
Proof.
  split; [exact scan_funding_rates_nil |].
  split; [exact funding_symbol_skip |].
  split; [reflexivity |].
  intros cfg w self o Ho E.
  apply returned_fact in Ho. destruct Ho as [(_ & _ & F) _].
  rewrite E in F. exact F.
Qed.

(** ** Short circuit *)

(** C5 : When the arbitrage budget read at the start of the cycle is zero
    or negative, [scan_all] returns the empty list without starting any
    detector and without calling the execution gate; the call returns
    normally, having only counted the scan. *)
Theorem scan_all_short_circuit cfg w self :
  arb_budget_of w <= 0 ->
  let c := scan_all cfg w self in
  returned c = [] /\ results c = [] /\ calls c = [] /\ executions c = [] /\
  total_scans (engine c) = S (total_scans self) /\
  total_opportunities (engine c) = total_opportunities self /\
  total_profit (engine c) = total_profit self.
Proof.
  intros Hb. simpl. rewrite (scan_all_skipped cfg w self Hb).
  unfold executions. simpl. repeat split; reflexivity.
Qed.

Lemma scan_all_short_circuit_witness :
  let c := scan_all cfg_default world_no_budget __init__ in
  returned c = [] /\ results c = [] /\ calls c = [] /\ executions c = [] /\
  total_scans (engine c) = S (total_scans __init__) /\
  total_opportunities (engine c) = total_opportunities __init__ /\
  total_profit (engine c) = total_profit __init__.
Proof.
  apply (scan_all_short_circuit cfg_default world_no_budget __init__).
  unfold Qle. simpl. lia.
Defined.

(** ** Failure isolation *)

Lemma fetch_prices_responders w sym exs :
  fetch_prices w exs sym = fetch_prices w (filter (responds w sym) exs) sym.
Proof.
  unfold fetch_prices. generalize (@nil (string * PriceEntry)).
  induction exs as [| name exs IH]; intros prices; simpl.
  - reflexivity.
  - unfold responds at 1.
    destruct (fetch_ticker w name sym) as [ticker |] eqn:E; simpl.
    + rewrite E. apply IH.
    + apply IH.
Qed.

Lemma merge_results_raise cfg rs1 e rs2 :
  rank cfg (merge_results (rs1 ++ Raise e :: rs2))
  = rank cfg (merge_results (rs1 ++ Ok [] :: rs2)).
Proof.
  rewrite !merge_results_flat, !flat_map_app. reflexivity.
Qed.

(** C7 : Failure isolation.  In a cycle that scans: a venue whose ticker
    fetch fails for a symbol is only left out of that symbol's comparison
    (the symbol is scanned as if over the responding venues alone); the
    four detector results are all collected and a detector that raised
    counts as an empty list, the lists of the others being merged,
    filtered and ranked into the returned list; [scan_all] itself always
    returns. *)
Theorem failure_isolation cfg w self :
  0 < arb_budget_of w ->
  let c := scan_all cfg w self in
  let exs := venues_of cfg w self in
  (forall sym opportunities,
      cross_symbol w exs opportunities sym
      = cross_symbol w (filter (responds w sym) exs) opportunities sym) /\
  results c = run_detectors cfg w exs /\
  returned c = rank cfg (flat_map result_or_empty (results c)) /\
  (forall rs1 e rs2,
      rank cfg (merge_results (rs1 ++ Raise e :: rs2))
      = rank cfg (merge_results (rs1 ++ Ok [] :: rs2))) /\
  (forall e,
      _scan_cross_exchange cfg w exs = Raise e ->
      returned c
      = rank cfg (result_or_empty (_scan_triangular cfg w exs)
                  ++ result_or_empty (_scan_funding_rates w exs)
                  ++ result_or_empty (_scan_stablecoins w exs))).
Proof.
  intros Hb. simpl. rewrite (scan_all_funded cfg w self Hb). simpl.
  split.
  { intros sym acc. unfold cross_symbol.
    rewrite <- fetch_prices_responders. reflexivity. }
  split; [reflexivity |].
  split; [rewrite merge_results_flat; reflexivity |].
  split; [intros; apply merge_results_raise |].
  intros e He. rewrite merge_results_flat. unfold run_detectors. simpl.
  rewrite He. simpl. rewrite app_nil_r. reflexivity.
Qed.

(** The cross-exchange detector raises on a zero ask, and the triangular
    opportunity of the same cycle is returned all the same. *)
Lemma failure_isolation_witness :
  0 < arb_budget_of world_zero_ask /\
  _scan_cross_exchange cfg_default world_zero_ask
    (venues_of cfg_default world_zero_ask __init__)
  = Raise ZeroDivisionError /\
  List.length (returned (scan_all cfg_default world_zero_ask __init__)) = 1%nat /\
  returned (scan_all cfg_default world_zero_ask __init__)
  = rank cfg_default
      (flat_map result_or_empty
         (results (scan_all cfg_default world_zero_ask __init__))).
Proof.
  assert (Hb : 0 < arb_budget_of world_zero_ask) by reflexivity.
  split; [exact Hb |].
  split; [vm_compute; reflexivity |].
  split; [vm_compute; reflexivity |].
  exact (proj1 (proj2 (proj2
           (failure_isolation cfg_default world_zero_ask __init__ Hb)))).
Defined.

(** ** Execution selection *)

Lemma executions_of_calls (log : list GateCall) budget :
  Forall
    (fun g =>
       call_budget g = budget /\
       call_outcome g = gate_outcome (call_opportunity g) budget) log ->
  Forall
    (fun e =>
       exists g, In g log /\ exec_opportunity e = call_opportunity g /\
                 gate_outcome (call_opportunity g) budget = Some e)
    (flat_map
       (fun g => match call_outcome g with Some e => [e] | None => [] end)
       log).
Proof.
  induction 1 as [| g log [_ Hg] Hlog IH]; simpl.
  - constructor.
  - apply Forall_app. split.
    + destruct (call_outcome g) as [e |]; [| constructor].
      constructor; [| constructor].
      exists g. split; [left; reflexivity |].
      split; [| symmetry; exact Hg].
      unfold gate_outcome in Hg.
      destruct (Qltb _ 10); [discriminate Hg |].
      injection Hg as ->. reflexivity.
    + eapply Forall_impl; [| exact IH].
      intros e (g' & Hin & H1 & H2). exists g'. split; [right |]; auto.
Qed.

Lemma executions_length (log : list GateCall) :
  (List.length
     (flat_map
        (fun g => match call_outcome g with Some e => [e] | None => [] end)
        log)
   <= List.length log)%nat.
Proof.
  induction log as [| g log IH]; simpl.
  - lia.
  - rewrite length_app. destruct (call_outcome g); simpl; lia.
Qed.

Lemma filter_length_le {A} (f : A -> bool) (l : list A) :
  (List.length (filter f l) <= List.length l)%nat.
Proof.
  induction l as [| x l IH]; simpl; [lia |].
  destruct (f x); simpl; lia.
Qed.

(** The calls of a cycle, whatever the budget. *)
Lemma scan_all_calls cfg w self :
  let c := scan_all cfg w self in
  map call_opportunity (calls c) = filter confident (firstn 3 (returned c)) /\
  Forall
    (fun g =>
       call_budget g = arb_budget_of w /\
       call_outcome g = gate_outcome (call_opportunity g) (arb_budget_of w))
    (calls c).
Proof.
  simpl. destruct (budget_cases w) as [Hb | Hb].
  - rewrite (scan_all_skipped cfg w self Hb). simpl. split; constructor.
  - rewrite (scan_all_funded cfg w self Hb). simpl. split.
    + apply execute_best_calls.
    + apply execute_best_outcomes.
Qed.

Lemma scan_all_returned_sorted cfg w self :
  StronglySorted ranked_before (returned (scan_all cfg w self)).
Proof.
  destruct (budget_cases w) as [Hb | Hb].
  - rewrite (scan_all_skipped cfg w self Hb). constructor.
  - rewrite (scan_all_funded cfg w self Hb). apply rank_sorted.
Qed.

Lemma scan_all_calls_length cfg w self :
  (List.length (calls (scan_all cfg w self)) <= 3)%nat.
Proof.
  destruct (scan_all_calls cfg w self) as [Hsel _].
  rewrite <- (length_map call_opportunity), Hsel.
  eapply Nat.le_trans; [apply filter_length_le |].
  apply firstn_le_length.
Qed.

Lemma scan_all_executions_length cfg w self :
  (List.length (executions (scan_all cfg w self)) <= 3)%nat.
Proof.
  eapply Nat.le_trans;
    [apply executions_length | apply scan_all_calls_length].
Qed.

(** C8, as the code has it : The opportunities passed to the execution
    gate are those of the first three entries of the ranked list whose
    confidence is at least 0.7, in ranked (descending net profit) order;
    at most three are passed and at most three executed per cycle, none
    of them with a confidence below 0.7.  A confident opportunity ranked
    fourth or lower is not passed, even when fewer than three are. *)
Theorem execution_selection cfg w self :
  let c := scan_all cfg w self in
  map call_opportunity (calls c) = filter confident (firstn 3 (returned c)) /\
  StronglySorted ranked_before (returned c) /\
  StronglySorted ranked_before (map call_opportunity (calls c)) /\
  (List.length (calls c) <= 3)%nat /\
  (List.length (executions c) <= 3)%nat /\
  Forall (fun g => 0.7 <= confidence (call_opportunity g)) (calls c) /\
  Forall (fun e => 0.7 <= confidence (exec_opportunity e)) (executions c).
Proof.
  cbv zeta.
  destruct (scan_all_calls cfg w self) as [Hsel Hout].
  pose proof (scan_all_returned_sorted cfg w self) as Hsorted.
  pose proof (scan_all_calls_length cfg w self) as Hlen.
  assert (Hconf : Forall (fun g => 0.7 <= confidence (call_opportunity g))
                    (calls (scan_all cfg w self))).
  { apply Forall_forall. intros g Hg.
    assert (Hin : In (call_opportunity g)
                    (map call_opportunity (calls (scan_all cfg w self))))
      by (apply in_map; exact Hg).
    rewrite Hsel in Hin. apply filter_In in Hin.
    apply Qgeb_ge. exact (proj2 Hin). }
  split; [exact Hsel |].
  split; [exact Hsorted |].
  split.
  { rewrite Hsel. apply StronglySorted_filter.
    apply StronglySorted_firstn. exact Hsorted. }
  split; [exact Hlen |].
  split; [apply scan_all_executions_length |].
  split; [exact Hconf |].
  pose proof (executions_of_calls _ _ Hout) as He.
  eapply Forall_impl; [| exact He].
  intros e (g & Hin & Hopp & _). rewrite Hopp.
  rewrite Forall_forall in Hconf. apply Hconf. exact Hin.
Qed.

(** C8, as stated, fails : three depegged stablecoins (confidence 0.5)
    hold the first three ranks and a confident cross-exchange opportunity
    the fourth: nothing is passed to the gate, while the top three of
    the confident opportunities is that fourth one. *)
Lemma selection_skips_confident_fourth :
  let c := scan_all cfg_default world_depeg __init__ in
  map call_opportunity (calls c) <> spec_selection (returned c).
Proof.
  vm_compute. intros H. discriminate H.
Qed.

(** ** Sizes at the execution gate *)

Lemma gate_outcome_Some o budget e :
  gate_outcome o budget = Some e ->
  exec_opportunity e = o /\
  exec_size e = pymin (max_size o) (budget * 0.1) /\
  10 <= exec_size e /\
  estimated_profit e = exec_size e * (net_profit o / 100).
Proof.
  unfold gate_outcome.
  destruct (Qltb (pymin (max_size o) (budget * 0.1)) 10) eqn:E;
    [discriminate |].
  intros [= <-]. simpl. apply Qltb_ge in E. auto.
Qed.

Lemma gate_skip cfg self o budget :
  Qmin (max_size o) (budget * 0.1) < 10 ->
  _execute_arbitrage cfg self o budget = (self, None).
Proof.
  intros H. rewrite <- pymin_Qmin in H. apply Qltb_lt in H.
  unfold _execute_arbitrage. rewrite H. reflexivity.
Qed.

Lemma Qsum_bound (l : list Q) (b : Q) :
  0 <= b -> Forall (fun x => x <= b) l ->
  forall n, (List.length l <= n)%nat ->
            Qsum l <= inject_Z (Z.of_nat n) * b.
Proof.
  intros Hb. induction 1 as [| x l Hx Hl IH]; intros n Hn; simpl.
  - assert (0 <= inject_Z (Z.of_nat n)).
    { change 0 with (inject_Z 0). rewrite <- Zle_Qle. lia. }
    nra.
  - destruct n as [| n]; simpl in Hn; [lia |].
    specialize (IH n ltac:(lia)).
    rewrite Nat2Z.inj_succ, <- Z.add_1_r, inject_Z_plus.
    change (inject_Z 1) with 1. lra.
Qed.

(** C2, as the code has it : Every opportunity passed to the gate is
    sized against the same budget figure, the one read at the start of
    the cycle: the size is min(max_size, 10% of that budget).  A size
    below 10 is skipped and leaves the engine as it was; otherwise the
    estimated profit is size times net profit percent.  No remaining
    budget is tracked from one opportunity to the next; as at most three
    are executed, the sizes of a cycle add up to at most 30% of the
    budget read at its start, hence never exceed it. *)
Theorem gate_allocation cfg w self :
  0 < arb_budget_of w ->
  let c := scan_all cfg w self in
  let budget := arb_budget_of w in
  Forall
    (fun g =>
       call_budget g = budget /\
       call_outcome g = gate_outcome (call_opportunity g) budget)
    (calls c) /\
  Forall
    (fun e =>
       exec_size e == Qmin (max_size (exec_opportunity e)) (budget * 0.1) /\
       10 <= exec_size e /\
       estimated_profit e
       = exec_size e * (net_profit (exec_opportunity e) / 100))
    (executions c) /\
  (forall self0 o,
      Qmin (max_size o) (budget * 0.1) < 10 ->
      _execute_arbitrage cfg self0 o budget = (self0, None)) /\
  (List.length (executions c) <= 3)%nat /\
  Qsum (map exec_size (executions c)) <= 0.3 * budget /\
  Qsum (map exec_size (executions c)) <= budget.
Proof.
  intros Hb. cbv zeta.
  destruct (scan_all_calls cfg w self) as [_ Hout].
  pose proof (scan_all_executions_length cfg w self) as Hlen.
  pose proof (executions_of_calls _ _ Hout) as He.
  fold (executions (scan_all cfg w self)) in He.
  assert (Hsize : Forall (fun x => x <= arb_budget_of w * 0.1)
                    (map exec_size (executions (scan_all cfg w self)))).
  { apply Forall_map. eapply Forall_impl; [| exact He].
    intros e (g & _ & _ & Hg). apply gate_outcome_Some in Hg.
    destruct Hg as (_ & -> & _). apply pymin_le_r. }
  assert (Hsum : Qsum (map exec_size (executions (scan_all cfg w self)))
                 <= inject_Z (Z.of_nat 3) * (arb_budget_of w * 0.1)).
  { apply Qsum_bound; [lra | exact Hsize |]. rewrite length_map. exact Hlen. }
  change (inject_Z (Z.of_nat 3)) with 3 in Hsum.
  split; [exact Hout |].
  split.
  { eapply Forall_impl; [| exact He].
    intros e (g & _ & Hopp & Hg). apply gate_outcome_Some in Hg.
    destruct Hg as (_ & Hs & H10 & Hp). rewrite Hopp.
    split; [rewrite Hs; apply pymin_Qmin | split; assumption]. }
  split; [intros self0 o; apply gate_skip |].
  split; [exact Hlen |].
  split; lra.
Qed.

Lemma gate_allocation_witness :
  0 < arb_budget_of world_three_pairs /\
  map (fun e => Qred (exec_size e))
    (executions (scan_all cfg_three_pairs world_three_pairs __init__))
  = [100; 100; 100] /\
  Qsum (map exec_size
          (executions (scan_all cfg_three_pairs world_three_pairs __init__)))
  <= 0.3 * arb_budget_of world_three_pairs.
Proof.
  assert (Hb : 0 < arb_budget_of world_three_pairs) by reflexivity.
  split; [exact Hb |].
  split; [vm_compute; reflexivity |].
  exact (proj1 (proj2 (proj2 (proj2 (proj2
           (gate_allocation cfg_three_pairs world_three_pairs __init__
              Hb)))))).
Defined.

(** C2, as stated, fails : with a budget of 1000 and three confident
    opportunities of large maximum size the gate allocates 100 to each,
    whereas 10% of the budget that remains would give 100, 90 and 81. *)
Lemma gate_ignores_remaining_budget :
  let c := scan_all cfg_three_pairs world_three_pairs __init__ in
  ~ Forall2 Qeq
      (map exec_size (executions c))
      (spec_gate_sizes (arb_budget_of world_three_pairs)
         (map call_opportunity (calls c))).
Proof.
  vm_compute. intros H.
  inversion H as [| a b l l' _ H1]; subst.
  inversion H1 as [| a' b' m m' H2 _]; subst.
  discriminate H2.
Qed.

(** ** Statistics *)

Lemma firstn_subset {A} (n : nat) (l : list A) (x : A) :
  In x (firstn n l) -> In x l.
Proof.
  intros H. rewrite <- (firstn_skipn n l). apply in_or_app. left. exact H.
Qed.

(** Under a non-negative threshold a confident opportunity never has a
    negative net profit. *)
Lemma confident_net_profit cfg o :
  0 <= min_arbitrage_profit_pct cfg ->
  detector_fact cfg o -> confident o = true -> 0 <= net_profit o.
Proof.
  intros Hmin (_ & _ & F) Hc. unfold confident in Hc.
  destruct (arb_type o).
  - lra.
  - destruct F as [F _]. lra.
  - contradiction.
  - rewrite F in Hc. discriminate Hc.
Qed.

Lemma scan_all_counts cfg w self :
  let c := scan_all cfg w self in
  exchanges (engine c) = venues_of cfg w self /\
  total_scans (engine c) = S (total_scans self) /\
  total_opportunities (engine c)
  = (total_opportunities self + List.length (returned c))%nat /\
  (returned c = [] -> total_profit (engine c) = total_profit self).
Proof.
  cbv zeta. destruct (budget_cases w) as [Hb | Hb].
  - rewrite (scan_all_skipped cfg w self Hb). simpl.
    repeat split; auto.
  - rewrite (scan_all_funded cfg w self Hb).
    cbv beta iota zeta delta [engine returned].
    match goal with
    | |- context [execute_best ?c ?b ?s ?l] =>
        pose proof (execute_best_frame c b l s) as Hf
    end.
    cbv zeta in Hf. simpl in Hf. destruct Hf as (H1 & H2 & H3).
    split; [exact H1 |]. split; [exact H2 |]. split; [exact H3 |].
    intros Hnil. rewrite Hnil. reflexivity.
Qed.

Lemma scan_all_profit cfg w self :
  0 <= min_arbitrage_profit_pct cfg ->
  total_profit self <= total_profit (engine (scan_all cfg w self)).
Proof.
  intros Hmin. destruct (budget_cases w) as [Hb | Hb].
  - rewrite (scan_all_skipped cfg w self Hb). simpl. lra.
  - rewrite (scan_all_funded cfg w self Hb).
    cbv beta iota zeta delta [engine].
    match goal with
    | |- context [execute_best ?c ?b ?s ?l] =>
        assert (Hp : total_profit s
                     <= total_profit (fst (execute_best c b s l)))
    end.
    { apply execute_best_profit. apply Forall_forall. intros o Ho Hc.
      apply firstn_subset in Ho.
      pose proof (ranked_fact cfg w (venues_of cfg w self)) as F.
      rewrite Forall_forall in F.
      eapply confident_net_profit; eauto. }
    exact Hp.
Qed.

Lemma execute_best_idle cfg budget best :
  forall self,
    flat_map
      (fun g => match call_outcome g with Some e => [e] | None => [] end)
      (snd (execute_best cfg budget self best)) = [] ->
    fst (execute_best cfg budget self best) = self.
Proof.
  induction best as [| o rest IH]; intros self; simpl.
  - reflexivity.
  - destruct (Qgeb (confidence o) 0.7); [| apply IH].
    unfold _execute_arbitrage.
    destruct (Qltb (pymin (max_size o) (budget * 0.1)) 10).
    + specialize (IH self).
      destruct (execute_best cfg budget self rest) as [self2 log].
      simpl in *. exact IH.
    + destruct (execute_best cfg budget _ rest) as [self2 log].
      simpl. discriminate.
Qed.

Lemma scan_all_idle cfg w self :
  executions (scan_all cfg w self) = [] ->
  total_profit (engine (scan_all cfg w self)) = total_profit self.
Proof.
  unfold executions. destruct (budget_cases w) as [Hb | Hb].
  - rewrite (scan_all_skipped cfg w self Hb). reflexivity.
  - rewrite (scan_all_funded cfg w self Hb).
    cbv beta iota zeta delta [engine calls].
    intros H. apply execute_best_idle in H. rewrite H. reflexivity.
Qed.




(** ** The triangular detector *)

Lemma tri_path_kind cfg w name acc path :
  Forall (fun o => arb_type o = TRIANGULAR) acc ->
  Forall (fun o => arb_type o = TRIANGULAR) (tri_path cfg w name acc path).
Proof.
  intros Hacc. destruct path as [[path0 path1] path2]. unfold tri_path.
  destruct (fetch_ticker w name path0) as [t0 |]; [| exact Hacc].
  destruct (fetch_ticker w name path1) as [t1 |]; [| exact Hacc].
  destruct (fetch_ticker w name path2) as [t2 |]; [| exact Hacc].
  destruct (pydiv start_amount (ask t0)) as [amount1 |]; [| exact Hacc].
  destruct (Qgtb _ _); [| exact Hacc].
  apply Forall_snoc; [exact Hacc | reflexivity].
Qed.

Lemma scan_triangular_kind cfg w exs l :
  _scan_triangular cfg w exs = Ok l ->
  Forall (fun o => arb_type o = TRIANGULAR) l.
Proof.
  unfold _scan_triangular. intros [= <-].
  apply fold_left_inv with (P := Forall (fun o => arb_type o = TRIANGULAR));
    [| constructor].
  intros acc name _ Hacc.
  apply (@fold_left_inv _ _ (Forall (fun o => arb_type o = TRIANGULAR))
           (tri_path cfg w name) triangular_paths); [| exact Hacc].
  intros acc' path _. apply tri_path_kind.
Qed.



(** ** Replaying a cycle under another clock *)

Lemma same_snoc a b o1 o2 :
  same_modulo_clock a b -> erase_clock o1 = erase_clock o2 ->
  same_modulo_clock (a ++ [o1]) (b ++ [o2]).
Proof.
  unfold same_modulo_clock. intros H1 H2. rewrite !map_app. simpl.
  rewrite H1, H2. reflexivity.
Qed.

Lemma cross_pair_replay w clock sym e1 e2 a b :
  same_modulo_clock a b ->
  Result_rel same_modulo_clock
    (cross_pair w sym e1 e2 a) (cross_pair (with_clock w clock) sym e1 e2 b).
Proof.
  intros Hab. destruct e1 as [ex1 p1], e2 as [ex2 p2]. unfold cross_pair.
  destruct (pydiv (pe_bid p2 - pe_ask p1) (pe_ask p1)) as [s12 | x];
    simpl; [| reflexivity].
  destruct (pydiv (pe_bid p1 - pe_ask p2) (pe_ask p2)) as [s21 | y];
    simpl; [| reflexivity].
  destruct (Qgtb s12 _), (Qgtb s21 _);
    repeat (apply same_snoc; [| reflexivity]); exact Hab.
Qed.

Lemma cross_pairs_replay w clock sym prices :
  forall a b,
    same_modulo_clock a b ->
    Result_rel same_modulo_clock
      (cross_pairs w sym prices a)
      (cross_pairs (with_clock w clock) sym prices b).
Proof.
  induction prices as [| e1 rest IH]; intros a b Hab; simpl.
  - exact Hab.
  - pose proof
      (foldM_rel same_modulo_clock
         (fun acc e2 => cross_pair w sym e1 e2 acc)
         (fun acc e2 => cross_pair (with_clock w clock) sym e1 e2 acc)
         rest
         (fun a0 b0 x H => cross_pair_replay w clock sym e1 x a0 b0 H)
         a b Hab) as Hfold.
    destruct (foldM _ rest a) as [a' | x], (foldM _ rest b) as [b' | y];
      simpl in *; try contradiction.
    + apply IH. exact Hfold.
    + exact Hfold.
Qed.

Lemma scan_cross_exchange_replay cfg w clock exs :
  Result_rel same_modulo_clock
    (_scan_cross_exchange cfg w exs)
    (_scan_cross_exchange cfg (with_clock w clock) exs).
Proof.
  unfold _scan_cross_exchange.
  destruct (List.length exs <? 2)%nat; [reflexivity |].
  apply foldM_rel; [| reflexivity].
  intros a b sym Hab. unfold cross_symbol.
  change (fetch_prices (with_clock w clock) exs sym)
    with (fetch_prices w exs sym).
  destruct (List.length (fetch_prices w exs sym) <? 2)%nat; [exact Hab |].
  apply cross_pairs_replay. exact Hab.
Qed.

Lemma tri_path_replay cfg w clock name path a b :
  same_modulo_clock a b ->
  same_modulo_clock
    (tri_path cfg w name a path) (tri_path cfg (with_clock w clock) name b path).
Proof.
  intros Hab. destruct path as [[path0 path1] path2]. unfold tri_path.
  change (fetch_ticker (with_clock w clock)) with (fetch_ticker w).
  destruct (fetch_ticker w name path0) as [t0 |]; [| exact Hab].
  destruct (fetch_ticker w name path1) as [t1 |]; [| exact Hab].
  destruct (fetch_ticker w name path2) as [t2 |]; [| exact Hab].
  destruct (pydiv start_amount (ask t0)) as [amount1 |]; [| exact Hab].
  destruct (Qgtb _ _); [| exact Hab].
  apply same_snoc; [exact Hab | reflexivity].
Qed.

Lemma stable_pair_replay w clock name pair a b :
  same_modulo_clock a b ->
  same_modulo_clock
    (stable_pair w name a pair) (stable_pair (with_clock w clock) name b pair).
Proof.
  intros Hab. unfold stable_pair.
  change (fetch_ticker (with_clock w clock)) with (fetch_ticker w).
  change (markets (with_clock w clock)) with (markets w).
  destruct (markets w name) as [ms |]; [| exact Hab].
  destruct (mem pair ms); [| exact Hab].
  destruct (fetch_ticker w name pair) as [ticker |]; [| exact Hab].
  destruct (Qgtb _ _); [| exact Hab].
  apply same_snoc; [exact Hab | reflexivity].
Qed.

Lemma result_or_empty_replay r1 r2 :
  Result_rel same_modulo_clock r1 r2 ->
  same_modulo_clock (result_or_empty r1) (result_or_empty r2).
Proof.
  destruct r1, r2; simpl; intros H; try contradiction;
    [exact H | reflexivity].
Qed.

Lemma same_app a1 b1 a2 b2 :
  same_modulo_clock a1 b1 -> same_modulo_clock a2 b2 ->
  same_modulo_clock (a1 ++ a2) (b1 ++ b2).
Proof.
  unfold same_modulo_clock. intros H1 H2. rewrite !map_app, H1, H2.
  reflexivity.
Qed.

Lemma detectors_replay cfg w clock exs :
  same_modulo_clock
    (merge_results (run_detectors cfg w exs))
    (merge_results (run_detectors cfg (with_clock w clock) exs)).
Proof.
  rewrite !merge_results_flat. unfold run_detectors.
  cbn [flat_map].
  apply same_app.
  { apply result_or_empty_replay, scan_cross_exchange_replay. }
  apply same_app.
  { unfold _scan_triangular. cbn [result_or_empty].
    apply fold_left_rel; [| reflexivity].
    intros a b name Hab.
    apply (fold_left_rel same_modulo_clock
             (tri_path cfg w name) (tri_path cfg (with_clock w clock) name)
             triangular_paths); [| exact Hab].
    intros a0 b0 path. apply tri_path_replay. }
  apply same_app.
  { rewrite !scan_funding_rates_nil. reflexivity. }
  apply same_app; [| reflexivity].
  unfold _scan_stablecoins. cbn [result_or_empty].
  apply fold_left_rel; [| reflexivity].
  intros a b name Hab.
  apply (fold_left_rel same_modulo_clock
           (stable_pair w name) (stable_pair (with_clock w clock) name)
           stablecoin_pairs); [| exact Hab].
  intros a0 b0 pair. apply stable_pair_replay.
Qed.

Lemma insert_desc_erase x l :
  map erase_clock (insert_desc x l)
  = insert_desc (erase_clock x) (map erase_clock l).
Proof.
  induction l as [| y l IH]; simpl.
  - reflexivity.
  - destruct (Qle_bool (net_profit y) (net_profit x)); simpl.
    + reflexivity.
    + rewrite IH. reflexivity.
Qed.

Lemma sort_desc_erase l :
  map erase_clock (sort_desc l) = sort_desc (map erase_clock l).
Proof.
  induction l as [| x l IH]; simpl.
  - reflexivity.
  - rewrite insert_desc_erase, IH. reflexivity.
Qed.

Lemma filter_erase (p : ArbitrageOpportunity -> bool) l :
  (forall o, p (erase_clock o) = p o) ->
  map erase_clock (filter p l) = filter p (map erase_clock l).
Proof.
  intros Hp. induction l as [| x l IH]; simpl.
  - reflexivity.
  - rewrite Hp. destruct (p x); simpl; rewrite IH; reflexivity.
Qed.

Lemma rank_erase cfg l :
  map erase_clock (rank cfg l) = rank cfg (map erase_clock l).
Proof.
  unfold rank. rewrite sort_desc_erase, filter_erase; reflexivity.
Qed.

Lemma decision_erase budget g :
  call_budget g = budget ->
  call_outcome g = gate_outcome (call_opportunity g) budget ->
  decision g = decision_of budget (erase_clock (call_opportunity g)).
Proof.
  intros Hb Ho. unfold decision, decision_of. rewrite Hb, Ho.
  unfold gate_outcome. simpl.
  destruct (Qltb _ 10); reflexivity.
Qed.

Lemma decisions_erase budget (log : list GateCall) :
  Forall
    (fun g =>
       call_budget g = budget /\
       call_outcome g = gate_outcome (call_opportunity g) budget) log ->
  map decision log
  = map (decision_of budget) (map erase_clock (map call_opportunity log)).
Proof.
  induction 1 as [| g log [Hb Ho] _ IH]; simpl.
  - reflexivity.
  - rewrite IH, (decision_erase budget g Hb Ho). reflexivity.
Qed.

Lemma venues_of_replay cfg w clock self1 self2 :
  exchanges self1 = exchanges self2 ->
  venues_of cfg (with_clock w clock) self2 = venues_of cfg w self1.
Proof.
  intros H. unfold venues_of. rewrite H. reflexivity.
Qed.

Lemma scan_all_returned_replay cfg w clock self1 self2 :
  exchanges self1 = exchanges self2 ->
  same_modulo_clock
    (returned (scan_all cfg w self1))
    (returned (scan_all cfg (with_clock w clock) self2)).
Proof.
  intros Hex. unfold same_modulo_clock.
  destruct (budget_cases w) as [Hb | Hb].
  - rewrite (scan_all_skipped cfg w self1 Hb).
    rewrite (scan_all_skipped cfg (with_clock w clock) self2 Hb).
    reflexivity.
  - rewrite (scan_all_funded cfg w self1 Hb).
    rewrite (scan_all_funded cfg (with_clock w clock) self2 Hb).
    cbv beta iota zeta delta [returned].
    rewrite (venues_of_replay cfg w clock self1 self2 Hex).
    rewrite !rank_erase. f_equal. apply detectors_replay.
Qed.

(** C9, as the code has it : Two runs of a scan cycle over the same
    ticker snapshot, budget, connected venues and configuration, whatever
    the clock, return ranked lists that agree on every field except the
    clock readings (the timestamp suffix of the id and the timestamp), and
    take the same execution decisions: the same opportunities are passed
    to the gate with the same budget, and executed with the same sizes and
    estimated profits. *)
Theorem replay_deterministic cfg w clock self1 self2 :
  exchanges self1 = exchanges self2 ->
  let c1 := scan_all cfg w self1 in
  let c2 := scan_all cfg (with_clock w clock) self2 in
  map erase_clock (returned c1) = map erase_clock (returned c2) /\
  map decision (calls c1) = map decision (calls c2).
Proof.
  intros Hex. cbv zeta.
  pose proof (scan_all_returned_replay cfg w clock self1 self2 Hex) as Hret.
  unfold same_modulo_clock in Hret.
  split; [exact Hret |].
  destruct (scan_all_calls cfg w self1) as [Hsel1 Hout1].
  destruct (scan_all_calls cfg (with_clock w clock) self2) as [Hsel2 Hout2].
  change (arb_budget_of (with_clock w clock)) with (arb_budget_of w) in Hout2.
  rewrite (decisions_erase _ _ Hout1), (decisions_erase _ _ Hout2).
  rewrite Hsel1, Hsel2.
  rewrite !filter_erase by reflexivity.
  rewrite <- !firstn_map, Hret. reflexivity.
Qed.

Lemma replay_deterministic_witness :
  exchanges __init__ = exchanges __init__ /\
  map erase_clock
    (returned (scan_all cfg_three_pairs world_three_pairs __init__))
  = map erase_clock
      (returned
         (scan_all cfg_three_pairs
            (with_clock world_three_pairs (wall_clock 1700000060))
            __init__)).
Proof.
  split; [reflexivity |].
  exact (proj1 (replay_deterministic cfg_three_pairs world_three_pairs
                  (wall_clock 1700000060) __init__ __init__ eq_refl)).
Defined.

(** C9, as stated, fails : replaying the same snapshot a minute later
    returns a list whose ids and timestamps differ. *)
Lemma replay_changes_ids :
  returned (scan_all cfg_three_pairs world_three_pairs __init__)
  <> returned
       (scan_all cfg_three_pairs
          (with_clock world_three_pairs (wall_clock 1700000060)) __init__).
Proof.
  vm_compute. intros H. discriminate H.
Qed.

(** ** The minimum-profit filter *)

(** C1 at its failing input : binance quotes an ask of 100, bybit a bid
    of 100.5 (fees 0.075% each) and the threshold is 0.4%: the single
    opportunity of the cycle has gross spread 0.5, fees 0.15 and net
    profit 0.35, below the threshold, and yet it is returned (and
    executed): the filter compares the gross spread, in percent, with a
    hundredth of the threshold. *)
Theorem filter_passes_low_net_profit :
  let c := scan_all cfg_strict world_binance_bybit __init__ in
  exists o,
    returned c = [o] /\
    gross_profit o == 0.5 /\ total_fees_pct o == 0.15 /\
    net_profit o == 0.35 /\
    net_profit o == gross_profit o - total_fees_pct o /\
    net_profit o < min_arbitrage_profit_pct cfg_strict /\
    Qgeb (spread o) (min_arbitrage_profit_pct cfg_strict / 100) = true /\
    map call_opportunity (calls c) = [o].
Proof.
  cbv zeta. eexists. split; [vm_compute; reflexivity |].
  repeat split; vm_compute; reflexivity.
Qed.


(** * Further properties of the engine *)

(** ** Connecting the venues *)

Lemma mem_In (k : string) (l : list string) : mem k l = true <-> In k l.
Proof.
  unfold mem. rewrite existsb_exists. split.
  - intros (x & Hx & E). apply String.eqb_eq in E. subst. exact Hx.
  - intros H. exists k. split; [exact H | apply String.eqb_refl].
Qed.

Lemma add_key_In (k x : string) (l : list string) :
  In x (add_key k l) <-> In x l \/ x = k.
Proof.
  unfold add_key. destruct (mem k l) eqn:E.
  - apply mem_In in E. split; [tauto |].
    intros [H | ->]; assumption.
  - rewrite in_app_iff. simpl. split.
    + intros [H | [H | []]]; [left | right]; auto.
    + intros [H | ->]; [left | right; left]; auto.
Qed.

Lemma add_key_NoDup (k : string) (l : list string) :
  NoDup l -> NoDup (add_key k l).
Proof.
  intros Hl. unfold add_key. destruct (mem k l) eqn:E; [exact Hl |].
  assert (Hk : ~ In k l).
  { intros H. apply mem_In in H. congruence. }
  clear E. induction Hl as [| y l Hy Hl IH]; simpl.
  - constructor; [intros [] | constructor].
  - constructor.
    + rewrite in_app_iff. simpl. intros [H | [H | []]]; [tauto |].
      subst. apply Hk. left. reflexivity.
    + apply IH. intros H. apply Hk. right. exact H.
Qed.

Lemma initialize_unfold cfg w exs :
  initialize cfg w exs
  = if negb (ccxt_available w) then exs
    else fold_left
           (fun exs name =>
              if connectable cfg w name then add_key name exs else exs)
           (arbitrage_exchanges cfg) exs.
Proof.
  unfold initialize. destruct (negb (ccxt_available w)); [reflexivity |].
  generalize (arbitrage_exchanges cfg). intros l. revert exs.
  induction l as [| name l IH]; intros exs; simpl; [reflexivity |].
  rewrite <- IH. f_equal. unfold connectable.
  destruct (exchange_configs cfg name) as [k |]; [| reflexivity].
  destruct (negb (String.eqb k "") || String.eqb name "binance");
    reflexivity.
Qed.

Lemma connect_loop_In (ok : string -> bool) (l : list string) :
  forall acc x,
    In x (fold_left
            (fun exs name => if ok name then add_key name exs else exs)
            l acc)
    <-> In x acc \/ (In x l /\ ok x = true).
Proof.
  induction l as [| name l IH]; intros acc x; simpl.
  - tauto.
  - rewrite IH. destruct (ok name) eqn:E.
    + rewrite add_key_In. split.
      * intros [[H | ->] | [H1 H2]]; auto.
      * intros [H | [[-> | H1] H2]]; auto.
    + split.
      * intros [H | [H1 H2]]; auto.
      * intros [H | [[-> | H1] H2]]; auto. congruence.
Qed.

Lemma connect_loop_NoDup (ok : string -> bool) (l : list string) :
  forall acc,
    NoDup acc ->
    NoDup (fold_left
             (fun exs name => if ok name then add_key name exs else exs)
             l acc).
Proof.
  induction l as [| name l IH]; intros acc Hacc; simpl.
  - exact Hacc.
  - apply IH. destruct (ok name); [apply add_key_NoDup |]; exact Hacc.
Qed.

Lemma connectable_iff cfg w name :
  connectable cfg w name = true <->
  connect w name = true /\
  (name = "binance" \/
   (name = "bybit" /\ bybit_api_key cfg <> "") \/
   (name = "okx" /\ okx_api_key cfg <> "")).
Proof.
  unfold connectable, exchange_configs.
  destruct (String.eqb_spec name "binance") as [-> | Hb].
  { rewrite orb_true_r. simpl. tauto. }
  destruct (String.eqb_spec name "bybit") as [-> | Hy].
  { rewrite orb_false_r, andb_true_iff, negb_true_iff.
    split.
    - intros [H1 H2]. split; [exact H2 |]. right; left.
      split; [reflexivity |]. apply String.eqb_neq. exact H1.
    - intros [H2 [H | [[_ H] | [H _]]]]; try discriminate H.
      split; [apply String.eqb_neq; exact H | exact H2]. }
  destruct (String.eqb_spec name "okx") as [-> | Ho].
  { rewrite orb_false_r, andb_true_iff, negb_true_iff.
    split.
    - intros [H1 H2]. split; [exact H2 |]. right; right.
      split; [reflexivity |]. apply String.eqb_neq. exact H1.
    - intros [H2 [H | [[H _] | [_ H]]]]; try discriminate H.
      split; [apply String.eqb_neq; exact H | exact H2]. }
  split; [discriminate |].
  intros [_ [H | [[H _] | [H _]]]]; contradiction.
Qed.

(** X1 : [initialize] on an engine without venues connects exactly the
    venues that are listed in [arbitrage_exchanges], are one of binance,
    bybit and okx, have an API key (binance needs none) and whose handle
    can be built, provided ccxt is available; every other listed venue
    (kucoin, gate, mexc, ...) is silently left out.  No venue is
    connected twice. *)
Theorem initialize_connects cfg w :
  (forall name,
      In name (initialize cfg w []) <->
      ccxt_available w = true /\
      In name (arbitrage_exchanges cfg) /\
      connect w name = true /\
      (name = "binance" \/
       (name = "bybit" /\ bybit_api_key cfg <> "") \/
       (name = "okx" /\ okx_api_key cfg <> ""))) /\
  NoDup (initialize cfg w []).
Proof.
  rewrite initialize_unfold. destruct (ccxt_available w); simpl.
  - split.
    + intros name. rewrite connect_loop_In, connectable_iff. simpl.
      intuition.
    + apply connect_loop_NoDup. constructor.
  - split; [| constructor].
    intros name. simpl. split; [intros [] | intros [H _]; discriminate H].
Qed.

(** ** The venue set over the cycles *)

Lemma venues_of_nonempty cfg w self :
  exchanges self <> [] -> venues_of cfg w self = exchanges self.
Proof.
  unfold venues_of. destruct (exchanges self); [congruence | reflexivity].
Qed.

(** X2 : Once the engine holds a venue, [scan_all] never calls
    [initialize] again: over any sequence of cycles, whatever the worlds
    answer, the venue set stays what it was. *)
Theorem venues_frozen cfg ws :
  forall self,
    exchanges self <> [] ->
    exchanges (run_cycles cfg ws self) = exchanges self.
Proof.
  unfold run_cycles. induction ws as [| w ws IH]; intros self Hne; simpl.
  - reflexivity.
  - destruct (scan_all_counts cfg w self) as (Hex & _).
    rewrite (venues_of_nonempty cfg w self Hne) in Hex.
    rewrite IH; [exact Hex | rewrite Hex; exact Hne].
Qed.

Lemma venues_frozen_witness :
  exchanges
    (run_cycles cfg_strict [world_binance_bybit; world_no_budget]
       engine_kucoin_mexc)
  = ["kucoin"; "mexc"].
Proof.
  apply (venues_frozen cfg_strict [world_binance_bybit; world_no_budget]
           engine_kucoin_mexc).
  discriminate.
Defined.

Lemma initialize_nothing cfg w :
  ccxt_available w = false \/ (forall name, connect w name = false) ->
  initialize cfg w [] = [].
Proof.
  intros H. rewrite initialize_unfold.
  destruct (ccxt_available w) eqn:E; simpl; [| reflexivity].
  destruct H as [H | H]; [discriminate H |].
  generalize (arbitrage_exchanges cfg). intros l.
  induction l as [| name l IH]; simpl; [reflexivity |].
  assert (C : connectable cfg w name = false).
  { unfold connectable. destruct (exchange_configs cfg name); [| reflexivity].
    rewrite H. apply andb_false_r. }
  rewrite C. exact IH.
Qed.

(** X3 : An engine without venues for which nothing connects (ccxt is
    missing, or no handle can be built) degrades to a no-op: the scan
    returns the empty list and calls the gate for nothing, leaves the
    venue set empty and only counts the scan; this whatever the budget
    and the tickers. *)
Theorem scan_without_venues cfg w self :
  exchanges self = [] ->
  ccxt_available w = false \/ (forall name, connect w name = false) ->
  let c := scan_all cfg w self in
  returned c = [] /\ calls c = [] /\
  exchanges (engine c) = [] /\
  total_scans (engine c) = S (total_scans self) /\
  total_opportunities (engine c) = total_opportunities self /\
  total_profit (engine c) = total_profit self.
Proof.
  intros Hex Hw. cbv zeta.
  assert (Hv : venues_of cfg w self = []).
  { unfold venues_of. rewrite Hex. apply initialize_nothing. exact Hw. }
  destruct (budget_cases w) as [Hb | Hb].
  - rewrite (scan_all_skipped cfg w self Hb), Hv. simpl.
    repeat split; reflexivity.
  - rewrite (scan_all_funded cfg w self Hb), Hv. simpl.
    repeat split; try reflexivity. lia.
Qed.

Lemma scan_without_venues_witness :
  let c := scan_all cfg_strict world_no_ccxt __init__ in
  returned c = [] /\ calls c = [] /\
  exchanges (engine c) = [] /\
  total_scans (engine c) = S (total_scans __init__) /\
  total_opportunities (engine c) = total_opportunities __init__ /\
  total_profit (engine c) = total_profit __init__.
Proof.
  apply (scan_without_venues cfg_strict world_no_ccxt __init__).
  - reflexivity.
  - left. reflexivity.
Defined.

(** ** When the cross-exchange detector raises *)

Lemma cross_pair_raises w sym e1 e2 acc :
  (zero_ask e1 || zero_ask e2 = true ->
   cross_pair w sym e1 e2 acc = Raise ZeroDivisionError) /\
  (zero_ask e1 || zero_ask e2 = false ->
   exists r, cross_pair w sym e1 e2 acc = Ok r).
Proof.
  destruct e1 as [ex1 p1], e2 as [ex2 p2].
  unfold cross_pair, zero_ask, pydiv. simpl.
  destruct (Qeq_bool (pe_ask p1) 0); simpl.
  - split; [reflexivity | discriminate].
  - destruct (Qeq_bool (pe_ask p2) 0); simpl.
    + split; [reflexivity | discriminate].
    + split; [discriminate | intros _; eexists; reflexivity].
Qed.

Lemma foldM_raises {A B} (f : B -> A -> Result B) (bad : A -> bool)
    (e : Exception) (l : list A) :
  (forall acc x,
      (bad x = true -> f acc x = Raise e) /\
      (bad x = false -> exists acc', f acc x = Ok acc')) ->
  forall acc,
    (existsb bad l = true -> foldM f l acc = Raise e) /\
    (existsb bad l = false -> exists r, foldM f l acc = Ok r).
Proof.
  intros Hf. induction l as [| x l IH]; intros acc; simpl.
  - split; [discriminate | intros _; eexists; reflexivity].
  - destruct (Hf acc x) as [Hbad Hok]. destruct (bad x); simpl.
    + rewrite (Hbad eq_refl). simpl. split; [reflexivity | discriminate].
    + destruct (Hok eq_refl) as [acc' ->]. simpl. apply IH.
Qed.

(** The inner loop of the pair enumeration, for a first venue [e1]. *)
Lemma cross_row_raises w sym e1 rest :
  forall acc,
    (zero_ask e1 && negb (List.length rest <? 1)%nat
     || existsb zero_ask rest = true ->
     foldM (fun acc e2 => cross_pair w sym e1 e2 acc) rest acc
     = Raise ZeroDivisionError) /\
    (zero_ask e1 && negb (List.length rest <? 1)%nat
     || existsb zero_ask rest = false ->
     exists r,
       foldM (fun acc e2 => cross_pair w sym e1 e2 acc) rest acc = Ok r).
Proof.
  induction rest as [| e2 rest IH]; intros acc.
  - simpl. rewrite andb_false_r. simpl.
    split; [discriminate | intros _; eexists; reflexivity].
  - destruct (cross_pair_raises w sym e1 e2 acc) as [Hbad Hok].
    cbn [foldM List.length existsb]. change (S (List.length rest) <? 1)%nat
      with false. rewrite andb_true_r.
    destruct (zero_ask e1) eqn:Z1.
    + simpl in Hbad. rewrite (Hbad eq_refl). simpl.
      split; [reflexivity | discriminate].
    + simpl in Hbad, Hok. destruct (zero_ask e2) eqn:Z2.
      * rewrite (Hbad eq_refl). simpl. split; [reflexivity | discriminate].
      * destruct (Hok eq_refl) as [r ->]. cbn [bind orb].
        specialize (IH r). simpl in IH. exact IH.
Qed.

Lemma cross_pairs_raises w sym prices :
  forall acc,
    (negb (List.length prices <? 2)%nat && existsb zero_ask prices = true ->
     cross_pairs w sym prices acc = Raise ZeroDivisionError) /\
    (negb (List.length prices <? 2)%nat && existsb zero_ask prices = false ->
     exists r, cross_pairs w sym prices acc = Ok r).
Proof.
  induction prices as [| e1 rest IH]; intros acc.
  - simpl. split; [discriminate | intros _; eexists; reflexivity].
  - cbn [cross_pairs].
    destruct (cross_row_raises w sym e1 rest acc) as [Hbad Hok].
    destruct rest as [| e2 rest'].
    + simpl. split; [discriminate | intros _; eexists; reflexivity].
    + change (negb (List.length (e1 :: e2 :: rest') <? 2)%nat) with true.
      change (negb (List.length (e2 :: rest') <? 1)%nat) with true in *.
      rewrite andb_true_r in *. cbn [andb].
      change (existsb zero_ask (e1 :: e2 :: rest'))
        with (zero_ask e1 || existsb zero_ask (e2 :: rest')).
      destruct (zero_ask e1 || existsb zero_ask (e2 :: rest')) eqn:Z.
      * rewrite (Hbad eq_refl). simpl. split; [reflexivity | discriminate].
      * destruct (Hok eq_refl) as [r ->]. cbn [bind].
        split; [discriminate | intros _].
        apply orb_false_iff in Z. destruct Z as [_ Z].
        destruct (IH r) as [_ IHok]. apply IHok.
        rewrite Z. apply andb_false_r.
Qed.

Lemma cross_symbol_raises w exs acc sym :
  (symbol_raises w exs sym = true ->
   cross_symbol w exs acc sym = Raise ZeroDivisionError) /\
  (symbol_raises w exs sym = false ->
   exists r, cross_symbol w exs acc sym = Ok r).
Proof.
  unfold symbol_raises, cross_symbol.
  destruct (List.length (fetch_prices w exs sym) <? 2)%nat eqn:L.
  - simpl. split; [discriminate | intros _; eexists; reflexivity].
  - pose proof (cross_pairs_raises w sym (fetch_prices w exs sym) acc) as H.
    rewrite L in H. exact H.
Qed.

Lemma stable_pair_kind w name acc pair :
  Forall (fun o => arb_type o = STABLECOIN) acc ->
  Forall (fun o => arb_type o = STABLECOIN) (stable_pair w name acc pair).
Proof.
  intros Hacc. unfold stable_pair.
  destruct (markets w name) as [ms |]; [| exact Hacc].
  destruct (mem pair ms); [| exact Hacc].
  destruct (fetch_ticker w name pair) as [ticker |]; [| exact Hacc].
  destruct (Qgtb _ _); [| exact Hacc].
  apply Forall_snoc; [exact Hacc | reflexivity].
Qed.

Lemma scan_stablecoins_kind w exs l :
  _scan_stablecoins w exs = Ok l ->
  Forall (fun o => arb_type o = STABLECOIN) l.
Proof.
  unfold _scan_stablecoins. intros [= <-].
  apply fold_left_inv with (P := Forall (fun o => arb_type o = STABLECOIN));
    [| constructor].
  intros acc name _ Hacc.
  apply (@fold_left_inv _ _ (Forall (fun o => arb_type o = STABLECOIN))
           (stable_pair w name) stablecoin_pairs); [| exact Hacc].
  intros acc' pair _. apply stable_pair_kind.
Qed.


(** ** Fees and the shape of the opportunities *)

Lemma fee_rate_bounds (name : string) :
  0.075 <= fee_rate name /\ fee_rate name <= 0.1.
Proof.
  unfold fee_rate, fee_rates. cbn [dict_get].
  repeat (destruct (String.eqb name _);
          [split; unfold Qle; simpl; lia |]).
  split; unfold Qle; simpl; lia.
Qed.

Lemma cross_opp_shape w sym buy sell pbuy psell p1 p2 s tf acc :
  Qgtb s (tf / 100) = true ->
  tf == fee_rate buy + fee_rate sell ->
  emitted_shape (cross_opp w sym buy sell pbuy psell p1 p2 s tf acc).
Proof.
  intros H Htf. apply Qgtb_gt in H.
  unfold emitted_shape. simpl.
  assert (E : tf / 100 * 100 == tf) by field.
  split; [lra |]. split; [| reflexivity].
  destruct (Qgtb s 0.002) eqn:C.
  - left. apply Qgtb_gt in C. split; [reflexivity | lra].
  - right. apply Qgtb_le in C. split; [reflexivity | lra].
Qed.

Lemma cross_pair_shape w sym e1 e2 acc r :
  Forall emitted_shape acc ->
  cross_pair w sym e1 e2 acc = Ok r ->
  Forall emitted_shape r.
Proof.
  destruct e1 as [ex1 p1], e2 as [ex2 p2]. unfold cross_pair.
  intros Hacc.
  destruct (pydiv (pe_bid p2 - pe_ask p1) (pe_ask p1)) as [s12 |];
    simpl; [| discriminate].
  destruct (pydiv (pe_bid p1 - pe_ask p2) (pe_ask p2)) as [s21 |];
    simpl; [| discriminate].
  intros [= <-].
  assert (H1 : Forall emitted_shape
                 (if Qgtb s12 ((fee_rate ex1 + fee_rate ex2) / 100)
                  then acc ++ [cross_opp w sym ex1 ex2 p1 p2 p1 p2 s12
                                 (fee_rate ex1 + fee_rate ex2) acc]
                  else acc)).
  { destruct (Qgtb s12 _) eqn:E; [| exact Hacc].
    apply Forall_snoc; [exact Hacc |].
    apply cross_opp_shape; [exact E | reflexivity]. }
  destruct (Qgtb s21 _) eqn:E; [| exact H1].
  apply Forall_snoc; [exact H1 |].
  apply cross_opp_shape; [exact E | lra].
Qed.

Lemma cross_pairs_shape w sym prices :
  forall acc r,
    Forall emitted_shape acc ->
    cross_pairs w sym prices acc = Ok r ->
    Forall emitted_shape r.
Proof.
  induction prices as [| e1 rest IH]; intros acc r Hacc; simpl.
  - intros [= <-]. exact Hacc.
  - destruct (foldM _ rest acc) as [acc' |] eqn:E; simpl; [| discriminate].
    apply IH. revert E.
    apply foldM_inv with (P := Forall emitted_shape); [| exact Hacc].
    intros a x a' Ha Hx. eapply cross_pair_shape; eauto.
Qed.

Lemma scan_cross_exchange_shape cfg w exs l :
  _scan_cross_exchange cfg w exs = Ok l -> Forall emitted_shape l.
Proof.
  unfold _scan_cross_exchange.
  destruct (List.length exs <? 2)%nat.
  - intros [= <-]. constructor.
  - apply foldM_inv with (P := Forall emitted_shape); [| constructor].
    intros acc sym acc' Hacc. unfold cross_symbol.
    destruct (List.length (fetch_prices w exs sym) <? 2)%nat.
    + intros [= <-]. exact Hacc.
    + apply cross_pairs_shape. exact Hacc.
Qed.

Lemma tri_path_shape cfg w name acc path :
  Forall emitted_shape acc ->
  Forall emitted_shape (tri_path cfg w name acc path).
Proof.
  intros Hacc. destruct path as [[path0 path1] path2]. unfold tri_path.
  destruct (fetch_ticker w name path0) as [t0 |]; [| exact Hacc].
  destruct (fetch_ticker w name path1) as [t1 |]; [| exact Hacc].
  destruct (fetch_ticker w name path2) as [t2 |]; [| exact Hacc].
  destruct (pydiv start_amount (ask t0)) as [amount1 |]; [| exact Hacc].
  destruct (Qgtb _ _); [| exact Hacc].
  apply Forall_snoc; [exact Hacc |].
  unfold emitted_shape. simpl. split; reflexivity.
Qed.

Lemma stable_pair_shape w name acc pair :
  Forall emitted_shape acc ->
  Forall emitted_shape (stable_pair w name acc pair).
Proof.
  intros Hacc. unfold stable_pair.
  destruct (markets w name) as [ms |]; [| exact Hacc].
  destruct (mem pair ms); [| exact Hacc].
  destruct (fetch_ticker w name pair) as [ticker |]; [| exact Hacc].
  remember (Qabs (last ticker - 1)) as deviation eqn:D.
  destruct (Qgtb deviation 0.002) eqn:E; [| exact Hacc].
  apply Forall_snoc; [exact Hacc |].
  apply Qgtb_gt in E.
  unfold emitted_shape. simpl.
  split; [reflexivity |]. split; [lra |]. split; [lra |].
  repeat split; reflexivity.
Qed.

Lemma detectors_shape cfg w exs :
  Forall emitted_shape (merge_results (run_detectors cfg w exs)).
Proof.
  rewrite merge_results_flat. unfold run_detectors. cbn [flat_map].
  rewrite app_nil_r.
  repeat (apply Forall_app; split).
  - destruct (_scan_cross_exchange cfg w exs) as [l |] eqn:E; simpl.
    + eapply scan_cross_exchange_shape; eauto.
    + constructor.
  - unfold _scan_triangular. cbn [result_or_empty].
    apply fold_left_inv with (P := Forall emitted_shape); [| constructor].
    intros acc name _ Hacc.
    apply (@fold_left_inv _ _ (Forall emitted_shape)
             (tri_path cfg w name) triangular_paths); [| exact Hacc].
    intros acc' path _. apply tri_path_shape.
  - rewrite scan_funding_rates_nil. constructor.
  - unfold _scan_stablecoins. cbn [result_or_empty].
    apply fold_left_inv with (P := Forall emitted_shape); [| constructor].
    intros acc name _ Hacc.
    apply (@fold_left_inv _ _ (Forall emitted_shape)
             (stable_pair w name) stablecoin_pairs); [| exact Hacc].
    intros acc' pair _. apply stable_pair_shape.
Qed.

Lemma returned_shape cfg w self :
  Forall (fun o => emitted_shape o /\ detector_fact cfg o)
    (returned (scan_all cfg w self)).
Proof.
  apply Forall_forall. intros o Ho. split.
  - destruct (budget_cases w) as [Hb | Hb].
    + rewrite (scan_all_skipped cfg w self Hb) in Ho. contradiction.
    + rewrite (scan_all_funded cfg w self Hb) in Ho.
      cbv beta iota zeta delta [returned] in Ho.
      apply rank_In in Ho. destruct Ho as [Ho _].
      pose proof (detectors_shape cfg w (venues_of cfg w self)) as F.
      rewrite Forall_forall in F. apply F. exact Ho.
  - apply returned_fact in Ho. tauto.
Qed.

(** X5 : Every cross-exchange opportunity of a scan result was emitted
    above the fees: its gross spread (in percent) exceeds the two taker
    fees, which lie between 0.15 and 0.2 whatever the venues (an unknown
    venue is charged 0.1); its net profit is that spread minus the fees
    and is positive; and its confidence is 0.8 when the spread exceeds
    0.2 and 0.6 otherwise. *)
Theorem cross_exchange_returned cfg w self :
  Forall
    (fun o =>
       arb_type o = CROSS_EXCHANGE ->
       let fees := fee_rate (buy_exchange o) + fee_rate (sell_exchange o) in
       0.15 <= fees /\ fees <= 0.2 /\
       fees < spread o /\
       net_profit o == spread o - fees /\ 0 < net_profit o /\
       ((confidence o = 0.8 /\ 0.2 < spread o) \/
        (confidence o = 0.6 /\ spread o <= 0.2)))
    (returned (scan_all cfg w self)).
Proof.
  eapply Forall_impl; [| apply returned_shape].
  intros o [S (F1 & F2 & F3)] K. cbv zeta.
  unfold emitted_shape in S. unfold total_fees_pct in F1.
  rewrite K in S, F1, F3. destruct S as (S1 & S2 & _).
  pose proof (fee_rate_bounds (buy_exchange o)) as [B1 B2].
  pose proof (fee_rate_bounds (sell_exchange o)) as [B3 B4].
  rewrite F2.
  split; [lra |]. split; [lra |]. split; [rewrite <- F2; exact S1 |].
  split; [exact F1 |]. split; [exact F3 |].
  rewrite <- F2. exact S2.
Qed.

(** X6 : What reaches the execution gate: never a stablecoin (confidence
    0.5) nor a funding-rate opportunity, and a cross-exchange opportunity
    only when its gross spread exceeds 0.2%; a narrower cross-exchange
    spread, though returned, is never executed. *)
Theorem gate_admission cfg w self :
  Forall
    (fun g =>
       let o := call_opportunity g in
       arb_type o <> STABLECOIN /\ arb_type o <> FUNDING_RATE /\
       (arb_type o = CROSS_EXCHANGE ->
        0.2 < spread o /\ confidence o = 0.8))
    (calls (scan_all cfg w self)).
Proof.
  destruct (scan_all_calls cfg w self) as [Hsel _].
  apply Forall_forall. intros g Hg. cbv zeta.
  assert (Hin : In (call_opportunity g)
                  (filter confident (firstn 3 (returned (scan_all cfg w self))))).
  { rewrite <- Hsel. apply in_map. exact Hg. }
  apply filter_In in Hin. destruct Hin as [Hin Hc].
  apply firstn_subset in Hin.
  pose proof (returned_shape cfg w self) as F.
  rewrite Forall_forall in F. destruct (F _ Hin) as [S _].
  unfold emitted_shape in S. unfold confident in Hc.
  destruct (arb_type (call_opportunity g)).
  - split; [discriminate |]. split; [discriminate |]. intros _.
    destruct S as (_ & [[C1 C2] | [C1 C2]] & _).
    + split; assumption.
    + rewrite C1 in Hc. discriminate Hc.
  - split; [discriminate |]. split; discriminate.
  - contradiction.
  - destruct S as (C1 & _). rewrite C1 in Hc. discriminate Hc.
Qed.

(** ** One pair of venues *)

Lemma Qdiv_pos_num (x y : Q) : 0 < y -> 0 < x / y -> 0 < x.
Proof.
  intros Hy Hq.
  assert (E : x == x / y * y) by (field; lra).
  rewrite E. apply Qmult_lt_0_compat; assumption.
Qed.





(** ** The stablecoin detector *)

(** X9 : For one venue and one stablecoin pair: nothing is appended when
    the venue's markets were never loaded, when the pair is not listed or
    when the ticker fetch fails.  Otherwise an opportunity is appended
    exactly when the last price deviates from 1 by more than 0.002; it
    buys at the ask when the price is below the peg and is priced at the
    bid otherwise, targets 1, has gross spread 100 x deviation and net
    profit 100 x (deviation - 0.001), hence above 0.1, confidence 0.5 and
    maximum size 50000. *)
Theorem stablecoin_detector w name pair acc :
  let r := stable_pair w name acc pair in
  (markets w name = None -> r = acc) /\
  (forall ms, markets w name = Some ms -> mem pair ms = false -> r = acc) /\
  (fetch_ticker w name pair = None -> r = acc) /\
  (forall ms ticker,
      markets w name = Some ms -> mem pair ms = true ->
      fetch_ticker w name pair = Some ticker ->
      let deviation := Qabs (last ticker - 1) in
      (deviation <= 0.002 -> r = acc) /\
      (0.002 < deviation ->
       exists o,
         r = acc ++ [o] /\
         arb_type o = STABLECOIN /\ symbol o = pair /\
         buy_exchange o = name /\ sell_exchange o = name /\
         sell_price o = 1 /\
         (last ticker < 1 ->
          buy_price o = ask ticker /\
          details o = DetailsStable (last ticker) deviation "buy") /\
         (1 <= last ticker ->
          buy_price o = bid ticker /\
          details o = DetailsStable (last ticker) deviation "sell") /\
         spread o = deviation * 100 /\
         net_profit o = (deviation - 0.001) * 100 /\
         0.1 < net_profit o /\
         confidence o = 0.5 /\ max_size o = 50000)).
Proof.
  cbv zeta. unfold stable_pair.
  split; [intros ->; reflexivity |].
  split; [intros ms -> ->; reflexivity |].
  split.
  { intros ->. destruct (markets w name) as [ms |]; [| reflexivity].
    destruct (mem pair ms); reflexivity. }
  intros ms ticker -> -> ->.
  remember (Qabs (last ticker - 1)) as deviation eqn:D.
  split.
  - intros Hle. apply Qgtb_le in Hle. rewrite Hle. reflexivity.
  - intros Hgt. pose proof Hgt as G. apply Qgtb_gt in G. rewrite G.
    eexists. split; [reflexivity |]. cbn.
    repeat (split; [reflexivity |]).
    split.
    { intros Hlt. apply Qltb_lt in Hlt. rewrite Hlt. split; reflexivity. }
    split.
    { intros Hge. apply Qltb_ge in Hge. rewrite Hge. split; reflexivity. }
    repeat (split; [reflexivity |]).
    split; [lra | split; reflexivity].
Qed.

(** ** Budget, trading mode and accounting *)

Lemma gate_outcome_small_budget o budget :
  budget < 100 -> gate_outcome o budget = None.
Proof.
  intros Hb. unfold gate_outcome.
  assert (H : Qltb (pymin (max_size o) (budget * 0.1)) 10 = true).
  { apply Qltb_lt. pose proof (pymin_le_r (max_size o) (budget * 0.1)). lra. }
  rewrite H. reflexivity.
Qed.



Lemma execute_best_log cfg budget best :
  forall self,
    snd (execute_best cfg budget self best)
    = map (gate_call budget) (filter confident best).
Proof.
  induction best as [| o rest IH]; intros self; simpl.
  - reflexivity.
  - unfold confident at 1.
    destruct (Qgeb (confidence o) 0.7); [| apply IH].
    pose proof (execute_arbitrage_outcome cfg self o budget) as Hout.
    destruct (_execute_arbitrage cfg self o budget) as [self1 out].
    specialize (IH self1).
    destruct (execute_best cfg budget self1 rest) as [self2 log].
    simpl in *. rewrite IH, Hout. reflexivity.
Qed.

Lemma execute_best_live cfg budget best :
  paper_trading cfg = false ->
  forall self, fst (execute_best cfg budget self best) = self.
Proof.
  intros Hlive. induction best as [| o rest IH]; intros self; simpl.
  - reflexivity.
  - destruct (Qgeb (confidence o) 0.7); [| apply IH].
    unfold _execute_arbitrage. rewrite Hlive.
    destruct (Qltb (pymin (max_size o) (budget * 0.1)) 10).
    + specialize (IH self).
      destruct (execute_best cfg budget self rest) as [self2 log].
      exact IH.
    + specialize (IH self).
      destruct (execute_best cfg budget self rest) as [self2 log].
      exact IH.
Qed.

Lemma scan_all_live_profit cfg w self :
  paper_trading cfg = false ->
  total_profit (engine (scan_all cfg w self)) = total_profit self.
Proof.
  intros Hlive. destruct (budget_cases w) as [Hb | Hb].
  - rewrite (scan_all_skipped cfg w self Hb). reflexivity.
  - rewrite (scan_all_funded cfg w self Hb).
    cbv beta iota zeta delta [engine].
    rewrite (execute_best_live cfg _ _ Hlive). reflexivity.
Qed.

Lemma scan_all_mode cfg paper w self :
  returned (scan_all (with_paper_trading cfg paper) w self)
  = returned (scan_all cfg w self) /\
  results (scan_all (with_paper_trading cfg paper) w self)
  = results (scan_all cfg w self) /\
  calls (scan_all (with_paper_trading cfg paper) w self)
  = calls (scan_all cfg w self).
Proof.
  destruct (budget_cases w) as [Hb | Hb].
  - rewrite (scan_all_skipped cfg w self Hb).
    rewrite (scan_all_skipped (with_paper_trading cfg paper) w self Hb).
    repeat split; reflexivity.
  - rewrite (scan_all_funded cfg w self Hb).
    rewrite (scan_all_funded (with_paper_trading cfg paper) w self Hb).
    cbv beta iota zeta delta [returned results calls].
    split; [reflexivity |]. split; [reflexivity |].
    rewrite !execute_best_log. reflexivity.
Qed.

(** X11 : The trading mode only affects the cumulative profit.  Paper or
    live, a cycle returns the same list, collects the same detector
    results and makes the same gate calls with the same sizes and
    estimated profits; in live mode, where execution is not implemented,
    the cumulative profit never moves over any sequence of cycles. *)
Theorem trading_mode_only_affects_profit cfg w self :
  (forall paper,
      let c := scan_all cfg w self in
      let c' := scan_all (with_paper_trading cfg paper) w self in
      returned c' = returned c /\ results c' = results c /\
      calls c' = calls c /\ executions c' = executions c /\
      exchanges (engine c') = exchanges (engine c) /\
      total_scans (engine c') = total_scans (engine c) /\
      total_opportunities (engine c') = total_opportunities (engine c)) /\
  (forall ws,
      total_profit (run_cycles (with_paper_trading cfg false) ws self)
      = total_profit self).
Proof.
  split.
  - intros paper. cbv zeta.
    destruct (scan_all_mode cfg paper w self) as (H1 & H2 & H3).
    destruct (scan_all_counts cfg w self) as (A1 & A2 & A3 & _).
    destruct (scan_all_counts (with_paper_trading cfg paper) w self)
      as (B1 & B2 & B3 & _).
    split; [exact H1 |]. split; [exact H2 |]. split; [exact H3 |].
    split; [unfold executions; rewrite H3; reflexivity |].
    split; [rewrite A1, B1; reflexivity |].
    split; [rewrite A2, B2; reflexivity |].
    rewrite A3, B3, H1. reflexivity.
  - intros ws. unfold run_cycles. revert self.
    induction ws as [| w' ws IH]; intros self; simpl.
    + reflexivity.
    + rewrite IH. apply scan_all_live_profit. reflexivity.
Qed.

Lemma execute_best_accounting cfg budget best :
  paper_trading cfg = true ->
  forall self,
    total_profit (fst (execute_best cfg budget self best))
    == total_profit self
       + Qsum (map estimated_profit
                 (flat_map
                    (fun g => match call_outcome g with
                              | Some e => [e]
                              | None => []
                              end)
                    (snd (execute_best cfg budget self best)))).
Proof.
  intros Hpaper. induction best as [| o rest IH]; intros self; simpl.
  - lra.
  - destruct (Qgeb (confidence o) 0.7); [| apply IH].
    unfold _execute_arbitrage. rewrite Hpaper.
    destruct (Qltb (pymin (max_size o) (budget * 0.1)) 10).
    + specialize (IH self).
      destruct (execute_best cfg budget self rest) as [self2 log].
      simpl in *. exact IH.
    + match goal with
      | |- context [execute_best cfg budget ?s rest] => specialize (IH s)
      end.
      destruct (execute_best cfg budget _ rest) as [self2 log].
      simpl in *. lra.
Qed.

(** X12 : In paper mode the books balance: after a cycle the cumulative
    profit is what it was plus the estimated profits of the executions of
    that cycle, each being its size times its net profit percent. *)
Theorem paper_profit_accounting cfg w self :
  paper_trading cfg = true ->
  let c := scan_all cfg w self in
  total_profit (engine c)
  == total_profit self + Qsum (map estimated_profit (executions c)) /\
  Forall
    (fun e =>
       estimated_profit e
       = exec_size e * (net_profit (exec_opportunity e) / 100))
    (executions c).
Proof.
  intros Hpaper. cbv zeta. split.
  - unfold executions. destruct (budget_cases w) as [Hb | Hb].
    + rewrite (scan_all_skipped cfg w self Hb). simpl. lra.
    + rewrite (scan_all_funded cfg w self Hb).
      cbv beta iota zeta delta [engine calls].
      rewrite (execute_best_accounting cfg _ _ Hpaper). simpl. lra.
  - destruct (scan_all_calls cfg w self) as [_ Hout].
    pose proof (executions_of_calls _ _ Hout) as He.
    eapply Forall_impl; [| exact He].
    intros e (g & _ & Hopp & Hg). apply gate_outcome_Some in Hg.
    destruct Hg as (_ & _ & _ & Hp). rewrite Hopp. exact Hp.
Qed.

Lemma paper_profit_accounting_witness :
  paper_trading cfg_three_pairs = true /\
  total_profit (engine (scan_all cfg_three_pairs world_three_pairs __init__))
  == total_profit __init__
     + Qsum (map estimated_profit
               (executions
                  (scan_all cfg_three_pairs world_three_pairs __init__))).
Proof.
  split; [reflexivity |].
  exact (proj1 (paper_profit_accounting cfg_three_pairs world_three_pairs
                  __init__ eq_refl)).
Defined.

(** ** The reach of the filter *)

Lemma filter_all {A} (p : A -> bool) (l : list A) :
  Forall (fun x => p x = true) l -> filter p l = l.
Proof.
  induction 1 as [| x l Hx _ IH]; simpl.
  - reflexivity.
  - rewrite Hx, IH. reflexivity.
Qed.

Lemma emitted_passes_filter cfg o :
  0 <= min_arbitrage_profit_pct cfg ->
  min_arbitrage_profit_pct cfg <= 15 ->
  emitted_shape o -> detector_fact cfg o ->
  Qgeb (spread o) (min_arbitrage_profit_pct cfg / 100) = true.
Proof.
  intros Hlo Hhi S (F1 & F2 & F3). apply Qgeb_ge.
  assert (E : min_arbitrage_profit_pct cfg / 100 * 100
              == min_arbitrage_profit_pct cfg) by field.
  unfold emitted_shape in S. unfold total_fees_pct in F1.
  pose proof (fee_rate_bounds (buy_exchange o)) as [B1 _].
  pose proof (fee_rate_bounds (sell_exchange o)) as [B2 _].
  destruct (arb_type o).
  - destruct S as (S1 & _). lra.
  - destruct F3 as (F3 & _). rewrite F2. lra.
  - contradiction.
  - destruct S as (_ & S2 & _). lra.
Qed.

(** X13 : For a threshold between 0 and 15 (percent) the minimum-profit
    filter of [scan_all] removes nothing: the returned list is a
    reordering of everything the detectors emitted, and
    [total_opportunities] grows by that number. *)
Theorem filter_keeps_everything cfg w self :
  0 <= min_arbitrage_profit_pct cfg ->
  min_arbitrage_profit_pct cfg <= 15 ->
  let c := scan_all cfg w self in
  Permutation (returned c) (flat_map result_or_empty (results c)) /\
  total_opportunities (engine c)
  = (total_opportunities self
     + List.length (flat_map result_or_empty (results c)))%nat.
Proof.
  intros Hlo Hhi. cbv zeta.
  assert (P : Permutation (returned (scan_all cfg w self))
                (flat_map result_or_empty (results (scan_all cfg w self)))).
  { destruct (budget_cases w) as [Hb | Hb].
    - rewrite (scan_all_skipped cfg w self Hb). constructor.
    - rewrite (scan_all_funded cfg w self Hb).
      cbv beta iota zeta delta [returned results].
      rewrite <- merge_results_flat. unfold rank.
      rewrite filter_all; [apply sort_desc_perm |].
      pose proof (detectors_shape cfg w (venues_of cfg w self)) as S.
      pose proof (detectors_fact cfg w (venues_of cfg w self)) as F.
      rewrite Forall_forall in S, F. apply Forall_forall. intros o Ho.
      apply (emitted_passes_filter cfg o Hlo Hhi); auto. }
  split; [exact P |].
  destruct (scan_all_counts cfg w self) as (_ & _ & Ho & _).
  rewrite Ho. f_equal. apply Permutation_length. exact P.
Qed.

Lemma filter_keeps_everything_witness :
  0 <= min_arbitrage_profit_pct cfg_default /\
  min_arbitrage_profit_pct cfg_default <= 15 /\
  List.length (returned (scan_all cfg_default world_depeg __init__)) = 4%nat /\
  Permutation
    (returned (scan_all cfg_default world_depeg __init__))
    (flat_map result_or_empty
       (results (scan_all cfg_default world_depeg __init__))).
Proof.
  assert (Hlo : 0 <= min_arbitrage_profit_pct cfg_default)
    by (unfold Qle; simpl; lia).
  assert (Hhi : min_arbitrage_profit_pct cfg_default <= 15)
    by (unfold Qle; simpl; lia).
  split; [exact Hlo |]. split; [exact Hhi |].
  split; [vm_compute; reflexivity |].
  exact (proj1 (filter_keeps_everything cfg_default world_depeg __init__
                  Hlo Hhi)).
Defined.

(** ** The shared state *)

Lemma dict_get_set_same {V} (k : string) (v : V) (d : list (string * V)) :
  dict_get k (dict_set k v d) = Some v.
Proof.
  induction d as [| [k' v'] d IH]; simpl.
  - rewrite String.eqb_refl. reflexivity.
  - destruct (String.eqb k k') eqn:E; simpl.
    + rewrite String.eqb_refl. reflexivity.
    + rewrite E. exact IH.
Qed.

Lemma dict_get_set_other {V} (k k' : string) (v : V)
    (d : list (string * V)) :
  k' <> k -> dict_get k' (dict_set k v d) = dict_get k' d.
Proof.
  intros Hne. apply String.eqb_neq in Hne.
  induction d as [| [k0 v0] d IH]; simpl.
  - rewrite Hne. reflexivity.
  - destruct (String.eqb k k0) eqn:E; simpl.
    + apply String.eqb_eq in E. subst k0. rewrite Hne. reflexivity.
    + destruct (String.eqb k' k0); [reflexivity | exact IH].
Qed.

Lemma dict_get_del_same {V} (k : string) (d : list (string * V)) :
  dict_get k (dict_del k d) = None.
Proof.
  unfold dict_del. induction d as [| [k' v'] d IH]; simpl.
  - reflexivity.
  - destruct (String.eqb k k') eqn:E; simpl.
    + exact IH.
    + rewrite E. exact IH.
Qed.

Lemma redis_key_inj (k k' : string) : redis_key k = redis_key k' -> k = k'.
Proof.
  unfold redis_key. simpl. intros H. injection H as H. exact H.
Qed.

Lemma state_get_cached js up state key default :
  redis state = None \/ up = false ->
  state_get js up state key default
  = match dict_get key (local_cache state) with
    | Some v => v
    | None => default
    end.
Proof.
  unfold state_get. intros [-> | ->]; [reflexivity |].
  destruct (redis state); reflexivity.
Qed.

Lemma state_set_get_same js up1 up2 state key value default :
  redis state = None \/ up2 = false \/
  (up1 = true /\ loads js (dumps js value) = Some value) ->
  state_get js up2 (state_set js up1 state key value) key default = value.
Proof.
  unfold state_get, state_set. cbn [redis local_cache].
  rewrite dict_get_set_same.
  intros [-> | [-> | [-> Hl]]].
  - reflexivity.
  - destruct (redis state); [destruct up1 |]; reflexivity.
  - destruct (redis state) as [db |]; [| reflexivity].
    rewrite dict_get_set_same, Hl.
    destruct up2; [| reflexivity].
    destruct (String.eqb (dumps js value) ""); reflexivity.
Qed.

(** X14 : Insert then look up: after [set key value], [get key] returns
    [value] whenever no Redis is attached, or the Redis read fails, or
    the Redis write went through and the codec decodes what it encoded. *)
Theorem state_round_trip js up1 up2 state key value default :
  redis state = None \/ up2 = false \/
  (up1 = true /\ loads js (dumps js value) = Some value) ->
  state_get js up2 (state_set js up1 state key value) key default = value.
Proof.
  intros H. unfold state_get, state_set. cbn [redis local_cache].
  rewrite dict_get_set_same.
  destruct (redis state) as [db |] eqn:R; [| reflexivity].
  destruct up2; [| destruct up1; reflexivity].
  destruct H as [H | [H | [-> Hl]]]; [discriminate H | discriminate H |].
  rewrite dict_get_set_same, Hl.
  destruct (String.eqb (dumps js value) ""); reflexivity.
Qed.

Lemma state_round_trip_witness :
  state_get toy_json true
    (state_set toy_json true state_with_old_payload "allocation" PyNone)
    "allocation" (PyInt 0)
  = PyNone.
Proof.
  apply (state_round_trip toy_json true true state_with_old_payload
           "allocation" PyNone (PyInt 0)).
  right. right. split; reflexivity.
Defined.

(** X15 : [set] on a key leaves every other key as it was, in the local
    cache and on the Redis side alike: [get] of another key answers as
    before, whether or not the Redis calls go through. *)
Theorem state_set_frame js up1 up2 state key value key' default :
  key' <> key ->
  state_get js up2 (state_set js up1 state key value) key' default
  = state_get js up2 state key' default.
Proof.
  intros Hne. unfold state_get, state_set. cbn [redis local_cache].
  rewrite (dict_get_set_other key key' value _ Hne).
  destruct (redis state) as [db |]; [| reflexivity].
  destruct up1; [| reflexivity].
  destruct up2; [| reflexivity].
  rewrite dict_get_set_other; [reflexivity |].
  intros H. apply Hne. apply redis_key_inj. exact H.
Qed.

Lemma state_set_frame_witness :
  state_get toy_json true
    (state_set toy_json true state_with_old_payload "allocation" (PyInt 1))
    "arbitrage_stats" (PyInt 0)
  = state_get toy_json true state_with_old_payload "arbitrage_stats"
      (PyInt 0).
Proof.
  apply (state_set_frame toy_json true true state_with_old_payload
           "allocation" (PyInt 1) "arbitrage_stats" (PyInt 0)).
  discriminate.
Defined.

(** X16 : A failed Redis write is swallowed, and the next read is stale:
    when the server still holds an older decodable payload for the key
    and answers the read, [get] returns that older value, not the value
    just passed to [set] and kept in the local cache. *)
Theorem state_get_stale js state db key value default data old :
  redis state = Some db ->
  dict_get (redis_key key) db = Some data ->
  data <> "" ->
  loads js data = Some old ->
  state_get js true (state_set js false state key value) key default = old.
Proof.
  intros Hr Hd Hne Hl. unfold state_get, state_set.
  cbn [redis local_cache]. rewrite Hr, Hd, Hl.
  apply String.eqb_neq in Hne. rewrite Hne. reflexivity.
Qed.

Lemma state_get_stale_witness :
  state_get toy_json true
    (state_set toy_json false state_with_old_payload "arbitrage_stats"
       (PyInt 1))
    "arbitrage_stats" (PyInt 0)
  = PyNone.
Proof.
  apply (state_get_stale toy_json state_with_old_payload
           [(redis_key "arbitrage_stats", "old")] "arbitrage_stats"
           (PyInt 1) (PyInt 0) "old" PyNone);
    try reflexivity.
  discriminate.
Defined.

(** X17 : The expiry given to [set] never takes a value away from the
    process that wrote it: once the Redis key has expired, [get] falls
    back on the local cache, which keeps the value, and returns it
    instead of the default. *)
Theorem state_get_after_expiry js up1 up2 state key value default :
  state_get js up2 (redis_expire (state_set js up1 state key value) key)
    key default
  = value.
Proof.
  unfold state_get, redis_expire, state_set. cbn [redis local_cache].
  rewrite dict_get_set_same.
  destruct (redis state) as [db |]; [| reflexivity].
  destruct up1; destruct up2; try reflexivity;
    rewrite dict_get_del_same; reflexivity.
Qed.

(** X18 : What [get_stats] reports after a call of [scan_all], with no
    Redis attached.  After a cycle that scanned it is the statistics of
    the engine as the cycle left it, the scan counted.  A cycle without
    budget returns before saving: the state is untouched, so [get_stats]
    answers as before the call and misses the scan the engine counted. *)
Theorem stats_after_scan js up cfg w self state last_scan :
  redis state = None ->
  let c := scan_all cfg w self in
  let state' := scan_all_state js up cfg w self state last_scan in
  (0 < arb_budget_of w ->
   get_stats js up state' = stats_dict (engine c) last_scan /\
   total_scans (engine c) = S (total_scans self)) /\
  (arb_budget_of w <= 0 ->
   state' = state /\
   get_stats js up state' = get_stats js up state /\
   total_scans (engine c) = S (total_scans self)).
Proof.
  intros Hr. cbv zeta. unfold scan_all_state.
  destruct (scan_all_counts cfg w self) as (_ & Hs & _).
  split.
  - intros Hb. apply Qle_bool_gt in Hb. rewrite Hb.
    split; [| exact Hs].
    unfold get_stats, _save_stats. apply state_set_get_same.
    left. exact Hr.
  - intros Hb. apply Qle_bool_iff in Hb. rewrite Hb.
    repeat split; auto.
Qed.

Lemma stats_after_scan_witness :
  get_stats toy_json true
    (scan_all_state toy_json true cfg_default world_no_budget __init__
       fresh_state "2023-11-14T22:13:20")
  = get_stats toy_json true fresh_state /\
  total_scans (engine (scan_all cfg_default world_no_budget __init__))
  = 1%nat.
Proof.
  pose proof (stats_after_scan toy_json true cfg_default world_no_budget
                __init__ fresh_state "2023-11-14T22:13:20" eq_refl) as H.
  cbv zeta in H. destruct H as [_ H].
  assert (Hb : arb_budget_of world_no_budget <= 0)
    by (unfold Qle; simpl; lia).
  destruct (H Hb) as (_ & H2 & H3). split; [exact H2 | exact H3].
Defined.

(** ** What is executed is profitable *)

Lemma confident_net_profit_pos cfg o :
  0 <= min_arbitrage_profit_pct cfg ->
  detector_fact cfg o -> confident o = true -> 0 < net_profit o.
Proof.
  intros Hmin (_ & _ & F) Hc. unfold confident in Hc.
  destruct (arb_type o).
  - exact F.
  - destruct F as [F _]. lra.
  - contradiction.
  - rewrite F in Hc. discriminate Hc.
Qed.

(** X19 : Under a non-negative minimum-profit threshold every execution
    of a cycle is on an opportunity of positive net profit, with a size
    of at least 10, so its estimated profit is positive: the engine never
    executes a trade it estimates at a loss. *)
Theorem executions_are_profitable cfg w self :
  0 <= min_arbitrage_profit_pct cfg ->
  Forall
    (fun e =>
       0 < net_profit (exec_opportunity e) /\
       10 <= exec_size e /\ 0 < estimated_profit e)
    (executions (scan_all cfg w self)).
Proof.
  intros Hmin.
  destruct (scan_all_calls cfg w self) as [Hsel Hout].
  pose proof (executions_of_calls _ _ Hout) as He.
  fold (executions (scan_all cfg w self)) in He.
  eapply Forall_impl; [| exact He].
  intros e (g & Hg & Hopp & Hgate).
  apply gate_outcome_Some in Hgate. destruct Hgate as (_ & _ & H10 & Hp).
  assert (Hin : In (call_opportunity g)
                  (filter confident
                     (firstn 3 (returned (scan_all cfg w self))))).
  { rewrite <- Hsel. apply in_map. exact Hg. }
  apply filter_In in Hin. destruct Hin as [Hin Hc].
  apply firstn_subset in Hin. apply returned_fact in Hin.
  destruct Hin as [Hfact _].
  pose proof (confident_net_profit_pos cfg _ Hmin Hfact Hc) as Hnet.
  rewrite Hopp. split; [exact Hnet |]. split; [exact H10 |].
  rewrite Hp.
  assert (D : net_profit (call_opportunity g) / 100 * 100
              == net_profit (call_opportunity g)) by field.
  nra.
Qed.

Lemma executions_are_profitable_witness :
  0 <= min_arbitrage_profit_pct cfg_three_pairs /\
  List.length (executions (scan_all cfg_three_pairs world_three_pairs __init__))
  = 3%nat /\
  Forall
    (fun e =>
       0 < net_profit (exec_opportunity e) /\
       10 <= exec_size e /\ 0 < estimated_profit e)
    (executions (scan_all cfg_three_pairs world_three_pairs __init__)).
Proof.
  assert (Hmin : 0 <= min_arbitrage_profit_pct cfg_three_pairs)
    by (unfold Qle; simpl; lia).
  split; [exact Hmin |]. split; [vm_compute; reflexivity |].
  exact (executions_are_profitable cfg_three_pairs world_three_pairs
           __init__ Hmin).
Defined.
